(** * PageAllocator.h: a shallow embedding of the slab allocator

    The development follows runtime/src/Common/PageAllocator.h.  A
    [PageAllocator] serves slots of one size out of pages obtained from the
    [PagePool]; an [AggregateAllocator] routes a request to one of its
    [PageAllocator]s or to the [PagePool] directly.

    Integers of the source are [Z] with the wrap-around of their C++ type
    written out.  The header of a page ([class Page]) is a record kept in a
    finite map from page addresses; the slot area is byte-addressed memory,
    since the source reinterprets free slots as [Slot] nodes and clears
    allocated ones with [memset_s]. *)

From stdpp Require Import gmap list.
From Stdlib Require Import ZArith Lia.

Local Open Scope Z_scope.

(** ** Base/Globals.h *)

(** Modelled from the spec: [MapleRuntime::AlignDown] is declared in
    Base/Globals.h, which is not part of the sources at hand.  The spec
    describes it as aligning a value down to the enclosing boundary. *)
Definition AlignDown (x n : Z) : Z := n * (x / n).

(** Modelled from the spec: [MapleRuntime::AlignUp<T>] is declared in
    Base/Globals.h as well; it rounds a value up to the alignment, and its
    result has the [w]-bit unsigned type [T]. *)
Definition AlignUp (w : Z) (x n : Z) : Z := AlignDown (x + n - 1) n mod 2 ^ w.

(** ** class AllocatorUtils *)

Definition LOG_ALLOC_ALIGNMENT : Z := 3.
Definition ALLOC_ALIGNMENT : Z := Z.shiftl 1 LOG_ALLOC_ALIGNMENT.

(** ** Memory of the slot area *)

(** One value per address; a byte is read as the value modulo 256. *)
Definition Mem : Type := Z → Z.

Fixpoint loadN (n : nat) (m : Mem) (a : Z) : Z :=
  match n with
  | O => 0
  | S k => m a mod 256 + 256 * loadN k m (a + 1)
  end.

(** A pointer is eight bytes, least significant first. *)
Definition loadPtr (m : Mem) (a : Z) : Z := loadN 8 m a.

Definition storePtr (m : Mem) (a v : Z) : Mem :=
  λ x, if (a <=? x) && (x <? a + 8) then (v / 256 ^ (x - a)) mod 256 else m x.

Definition memset (m : Mem) (a c len : Z) : Mem :=
  λ x, if (a <=? x) && (x <? a + len) then c mod 256 else m x.

Definition poke (m : Mem) (a b : Z) : Mem :=
  λ x, if x =? a then b mod 256 else m x.

(** ** class PageAllocator::Page *)

Record Page : Type := mkPage {
  header : Z;   (* Slot* *)
  prev : Z;     (* Page* *)
  next : Z;     (* Page* *)
  total : Z;    (* uint16_t *)
  free : Z      (* uint16_t *)
}.

Definition with_header (v : Z) (P : Page) : Page :=
  mkPage v (prev P) (next P) (total P) (free P).
Definition with_prev (v : Z) (P : Page) : Page :=
  mkPage (header P) v (next P) (total P) (free P).
Definition with_next (v : Z) (P : Page) : Page :=
  mkPage (header P) (prev P) v (total P) (free P).
Definition with_total (v : Z) (P : Page) : Page :=
  mkPage (header P) (prev P) (next P) v (free P).
Definition with_free (v : Z) (P : Page) : Page :=
  mkPage (header P) (prev P) (next P) (total P) v.

(** ** State *)

(** The members of one [PageAllocator], the headers of the pages it holds,
    the memory, and the calls the [PagePool] has seen (latest first).  The
    [Page] object at the start of a held page is kept in [pages], under the
    address of the page, and not as bytes of [mem]: about the bytes of the
    page header of a held page [mem] says nothing. *)
Record State : Type := mkState {
  pages : gmap Z Page;
  mem : Mem;
  nonFull : Z;
  totalPages : Z;
  slotSize : Z;
  slotAlignment : Z;
  acquired : list Z;
  returned : list Z
}.

Definition set_pages (f : gmap Z Page → gmap Z Page) (s : State) : State :=
  mkState (f (pages s)) (mem s) (nonFull s) (totalPages s) (slotSize s)
          (slotAlignment s) (acquired s) (returned s).
Definition set_mem (f : Mem → Mem) (s : State) : State :=
  mkState (pages s) (f (mem s)) (nonFull s) (totalPages s) (slotSize s)
          (slotAlignment s) (acquired s) (returned s).
Definition set_nonFull (v : Z) (s : State) : State :=
  mkState (pages s) (mem s) v (totalPages s) (slotSize s)
          (slotAlignment s) (acquired s) (returned s).
Definition set_totalPages (v : Z) (s : State) : State :=
  mkState (pages s) (mem s) (nonFull s) v (slotSize s)
          (slotAlignment s) (acquired s) (returned s).
Definition log_acquired (p : Z) (s : State) : State :=
  mkState (pages s) (mem s) (nonFull s) (totalPages s) (slotSize s)
          (slotAlignment s) (p :: acquired s) (returned s).
Definition log_returned (p : Z) (s : State) : State :=
  mkState (pages s) (mem s) (nonFull s) (totalPages s) (slotSize s)
          (slotAlignment s) (acquired s) (p :: returned s).

(** ** Outcomes *)

(** The conditions the source checks with [CHECK_DETAIL]. *)
Inductive check : Type :=
  | WrongAllocator   (* "use the wrong allocator! slot size = %u" *)
  | MemsetFail       (* "memset_s fail" *)
  | DestroyInUse.    (* "destroy page in use: total = %u, free = %u" *)

Inductive fault : Type :=
  | Fatal (c : check)      (* a failed CHECK_DETAIL: abort with a diagnostic *)
  | NullDeref              (* a member access through a null Page* *)
  | WildDeref (p : Z)      (* a member access through a Page* to no held page *)
  | DivideByZero
  | Timeout.               (* the loop of InitPage ran out of fuel *)

Inductive outcome (A : Type) : Type :=
  | Ret (a : A) (s : State)
  | Abort (f : fault).
Arguments Ret {A} a s.
Arguments Abort {A} f.

Definition M (A : Type) : Type := State → outcome A.

Definition ret {A} (a : A) : M A := λ s, Ret a s.
Definition abort {A} (f : fault) : M A := λ _, Abort f.
Definition bind {A B} (m : M A) (k : A → M B) : M B :=
  λ s, match m s with
       | Ret a s' => k a s'
       | Abort f => Abort f
       end.
Definition gets {A} (f : State → A) : M A := λ s, Ret (f s) s.
Definition modify (f : State → State) : M unit := λ s, Ret tt (f s).
Definition when (b : bool) (m : M unit) : M unit := if b then m else ret tt.

Notation "x <- m ;; k" := (bind m (λ x, k))
  (at level 100, m at next level, right associativity).
Notation "m ;;; k" := (bind m (λ _, k))
  (at level 100, right associativity).

(** Access to the members of [*p]. *)
Definition deref (p : Z) : fault := if p =? 0 then NullDeref else WildDeref p.

Definition getPage (p : Z) : M Page :=
  λ s, match pages s !! p with
       | Some P => Ret P s
       | None => Abort (deref p)
       end.

Definition updPage (p : Z) (f : Page → Page) : M unit :=
  λ s, match pages s !! p with
       | Some P => Ret tt (set_pages <[p := f P]> s)
       | None => Abort (deref p)
       end.

(** ** Page *)

Definition Page_Allocate (page : Z) : M Z :=
  P <- getPage page ;;
  if negb (header P =? 0) then
    let result := header P in
    nxt <- gets (λ s, loadPtr (mem s) (header P)) ;;
    updPage page (with_header nxt) ;;;
    updPage page (λ P, with_free ((free P - 1) mod 2 ^ 16) P) ;;;
    ret result
  else ret 0.

Definition Page_Deallocate (page slot : Z) : M unit :=
  P <- getPage page ;;
  modify (set_mem (λ m, storePtr m slot (header P))) ;;;
  updPage page (with_header slot) ;;;
  updPage page (λ P, with_free ((free P + 1) mod 2 ^ 16) P).

Definition Page_Available (page : Z) : M bool :=
  P <- getPage page ;; ret (negb (free P =? 0)).

Definition Page_Empty (page : Z) : M bool :=
  P <- getPage page ;; ret (free P =? total P).

Section PageAllocator.

(** [AllocatorUtils::ALLOC_PAGE_SIZE] is defined outside the header, and
    [sizeof(Page)] depends on the platform. *)
Context (ALLOC_PAGE_SIZE sizeof_Page : Z).

(** *** PagePool *)

(** Modelled from the spec: PagePool.h is not part of the sources at
    hand.  [GetPage] hands out a raw page or fails; [fresh] is the address
    the pool answers with (null on failure) and [junk] the header bytes
    found in that page.  [ReturnPage] takes the page back. *)
Definition PagePool_GetPage (fresh : Z) (junk : Page) : M Z :=
  if fresh =? 0 then ret 0
  else modify (set_pages <[fresh := junk]>) ;;;
       modify (log_acquired fresh) ;;;
       ret fresh.

Definition PagePool_ReturnPage (page : Z) : M unit :=
  modify (set_pages (delete page)) ;;; modify (log_returned page).

(** *** PageAllocator *)

(** [explicit PageAllocator(uint16_t size)] *)
Definition PageAllocator_new (m : Mem) (size : Z) : State :=
  mkState ∅ m 0 0 size (AlignUp 16 size ALLOC_ALIGNMENT) [] [].

Definition CreatePage (fresh : Z) (junk : Page) : M Z :=
  PagePool_GetPage fresh junk.

Definition DestroyPage (page : Z) : M unit :=
  P <- getPage page ;;
  if negb (free P =? total P) then abort (Fatal DestroyInUse)
  else PagePool_ReturnPage page.

Definition InitPage_offset : Z := AlignUp 32 sizeof_Page ALLOC_ALIGNMENT.

(** The slot count as [InitPage] computes it: [size_t] arithmetic, stored
    into the [uint16_t] member [free]. *)
Definition slotCount (stride : Z) : Z :=
  ((ALLOC_PAGE_SIZE - InitPage_offset) mod 2 ^ 64 / stride) mod 2 ^ 16.

(** The [while (true)] loop of [InitPage]. *)
Fixpoint InitPage_loop (fuel : nat) (endp block prevSlot : Z) : M unit :=
  match fuel with
  | O => abort Timeout
  | S fuel' =>
      sa <- gets slotAlignment ;;
      let block := block + sa in
      let slotEnd := block + sa - 1 in
      if slotEnd >? endp then ret tt
      else
        let cur := block in
        modify (set_mem (λ m, storePtr m prevSlot cur)) ;;;
        InitPage_loop fuel' endp block cur
  end.

Definition InitPage (page : Z) : M unit :=
  updPage page (with_prev 0) ;;;
  updPage page (with_next 0) ;;;
  let offset := InitPage_offset in
  sa <- gets slotAlignment ;;
  if sa =? 0 then abort DivideByZero
  else
    updPage page (with_free (slotCount sa)) ;;;
    updPage page (λ P, with_total (free P) P) ;;;
    P <- getPage page ;;
    if negb (1 <=? free P) then abort (Fatal WrongAllocator)
    else
      let start := page in
      let endp := start + ALLOC_PAGE_SIZE - 1 in
      let block := start + offset in
      updPage page (with_header block) ;;;
      InitPage_loop (S (Z.to_nat ALLOC_PAGE_SIZE)) endp block block.

(** [AddToList] and [RemoveFromList] are only ever called on the member
    [nonFull]; the reference parameter is that member. *)
Definition AddToList (page : Z) : M unit :=
  list <- gets nonFull ;;
  when (negb (list =? 0)) (updPage list (with_prev page)) ;;;
  updPage page (with_next list) ;;;
  modify (set_nonFull page).

Definition RemoveFromList (page : Z) : M unit :=
  P <- getPage page ;;
  let prev := prev P in
  let next := next P in
  head <- gets nonFull ;;
  (if page =? head then
     modify (set_nonFull next) ;;;
     when (negb (next =? 0)) (updPage next (with_prev 0))
   else
     when (negb (prev =? 0)) (updPage prev (with_next next)) ;;;
     when (negb (next =? 0)) (updPage next (with_prev prev))) ;;;
  updPage page (with_prev 0) ;;;
  updPage page (with_next 0).

(** [memset_s(result, slotSize, 0, slotSize)] of the secure C library:
    it refuses a destination of size zero and otherwise clears it. *)
Definition memset_s (dest destMax c count : Z) : M bool :=
  if (destMax =? 0) || (dest =? 0) || (destMax <? count) then ret false
  else modify (set_mem (λ m, memset m dest c count)) ;;; ret true.

Definition PageAllocator_Allocate (fresh : Z) (junk : Page) : M Z :=
  list <- gets nonFull ;;
  when (list =? 0)
    (cur <- CreatePage fresh junk ;;
     InitPage cur ;;;
     modify (set_nonFull cur) ;;;
     modify (λ s, set_totalPages ((totalPages s + 1) mod 2 ^ 32) s)) ;;;
  list <- gets nonFull ;;
  result <- Page_Allocate list ;;
  avail <- Page_Available list ;;
  when (negb avail) (RemoveFromList list) ;;;
  (if negb (result =? 0) then
     size <- gets slotSize ;;
     ok <- memset_s result size 0 size ;;
     if ok then ret tt else abort (Fatal MemsetFail)
   else ret tt) ;;;
  ret result.

Definition PageAllocator_Deallocate (slot : Z) : M unit :=
  let cur := AlignDown slot ALLOC_PAGE_SIZE in
  avail <- Page_Available cur ;;
  when (negb avail) (AddToList cur) ;;;
  Page_Deallocate cur slot ;;;
  empty <- Page_Empty cur ;;
  when empty
    (RemoveFromList cur ;;;
     DestroyPage cur ;;;
     modify (λ s, set_totalPages ((totalPages s - 1) mod 2 ^ 32) s)).

End PageAllocator.

(** ** Callers of one PageAllocator *)

(** What the surroundings of a [PageAllocator] do between two of its
    operations: ask for a slot, give one back, or write a byte.  An
    [OpAllocate] carries the answer the [PagePool] gives if that call asks it
    for a page. *)
Inductive op : Type :=
  | OpAllocate (fresh : Z) (junk : Page)
  | OpDeallocate (slot : Z)
  | OpPoke (a b : Z).

(** The allocator together with the slots its callers hold: those returned
    by [Allocate] and not yet passed to [Deallocate]. *)
Record Client : Type := mkClient {
  alloc : State;
  live : list Z
}.

Inductive result : Type :=
  | Done (c : Client)
  | Stopped (f : fault)   (* the allocator did not return *)
  | Misuse.               (* the surroundings broke their contract *)

Fixpoint remove_one (x : Z) (l : list Z) : list Z :=
  match l with
  | [] => []
  | y :: l' => if x =? y then l' else y :: remove_one x l'
  end.

Section Callers.

Context (ALLOC_PAGE_SIZE sizeof_Page : Z).

(** The [PagePool] answers with null, or with a page-aligned page inside
    the address space that is not handed out already. *)
Definition pool_ok (s : State) (fresh : Z) : bool :=
  (fresh =? 0)
  || ((0 <? fresh) && (fresh mod ALLOC_PAGE_SIZE =? 0)
      && (fresh + ALLOC_PAGE_SIZE <=? 2 ^ 64)
      && bool_decide (pages s !! fresh = None)).

(** A slot is given back only while it is held. *)
Definition dealloc_ok (c : Client) (slot : Z) : bool :=
  bool_decide (slot ∈ live c).

(** A byte is written inside a held slot, or in memory the allocator does
    not hold. *)
Definition poke_ok (c : Client) (a : Z) : bool :=
  existsb (λ r, (r <=? a) && (a <? r + slotSize (alloc c))) (live c)
  || bool_decide (pages (alloc c) !! AlignDown a ALLOC_PAGE_SIZE = None).

Definition step (o : op) (c : Client) : result :=
  match o with
  | OpAllocate fresh junk =>
      if (negb (nonFull (alloc c) =? 0)) || pool_ok (alloc c) fresh then
        match PageAllocator_Allocate ALLOC_PAGE_SIZE sizeof_Page
                fresh junk (alloc c) with
        | Ret r s => Done (mkClient s (r :: live c))
        | Abort f => Stopped f
        end
      else Misuse
  | OpDeallocate slot =>
      if dealloc_ok c slot then
        match PageAllocator_Deallocate ALLOC_PAGE_SIZE slot (alloc c) with
        | Ret _ s => Done (mkClient s (remove_one slot (live c)))
        | Abort f => Stopped f
        end
      else Misuse
  | OpPoke a b =>
      if poke_ok c a then
        Done (mkClient (set_mem (λ m, poke m a b) (alloc c)) (live c))
      else Misuse
  end.

Fixpoint run (ops : list op) (c : Client) : result :=
  match ops with
  | [] => Done c
  | o :: ops' =>
      match step o c with
      | Done c' => run ops' c'
      | r => r
      end
  end.

Definition start (m : Mem) (size : Z) : Client :=
  mkClient (PageAllocator_new m size) [].

(** A page is on the nonFull list when following [next] from the member
    [nonFull] arrives at it. *)
Inductive on_list (pg : gmap Z Page) : Z → Z → Prop :=
  | on_list_here p : p ≠ 0 → on_list pg p p
  | on_list_next cur P p :
      cur ≠ 0 → pg !! cur = Some P → on_list pg (next P) p →
      on_list pg cur p.

Definition in_nonFull (s : State) (p : Z) : Prop :=
  on_list (pages s) (nonFull s) p.

End Callers.

(** ** class AggregateAllocator *)

Definition MAX_ALLOCATORS : Z := 53.

(** The call an [AggregateAllocator] operation ends in. *)
Inductive delegate : Type :=
  | Allocator_Allocate (index : Z)                (* allocator[index].Allocate() *)
  | Allocator_Deallocate (index : Z) (p : Z)      (* allocator[index].Deallocate(p) *)
  | PagePool_GetRegion (size : Z)                 (* PagePool::GetPage(size) *)
  | PagePool_ReturnRegion (p : Z) (size : Z).     (* PagePool::ReturnPage(p, size) *)

Section AggregateAllocator.

(** Common/RunType.h is not part of the sources at hand: the largest size
    class and the map from sizes to size classes are left open. *)
Context (RUN_ALLOC_LARGE_SIZE : Z) (RUNTYPE_SIZE_TO_RUN_IDX : Z → Z).

(** [static_cast<uint32_t>(size)] for a [size_t]. *)
Definition to_uint32 (size : Z) : Z := size mod 2 ^ 32.

Definition AggregateAllocator_Allocate (size : Z) : delegate :=
  let alignedSize := AlignUp 32 (to_uint32 size) ALLOC_ALIGNMENT in
  if alignedSize <=? RUN_ALLOC_LARGE_SIZE then
    let index := RUNTYPE_SIZE_TO_RUN_IDX alignedSize in
    Allocator_Allocate index
  else PagePool_GetRegion size.

Definition AggregateAllocator_Deallocate (p size : Z) : delegate :=
  let alignedSize := AlignUp 32 (to_uint32 size) ALLOC_ALIGNMENT in
  if alignedSize <=? RUN_ALLOC_LARGE_SIZE then
    let index := RUNTYPE_SIZE_TO_RUN_IDX alignedSize in
    Allocator_Deallocate index p
  else PagePool_ReturnRegion p size.

(** The size a request stands for once rounded up to the allocation
    alignment, without the limits of a machine type. *)
Definition alignedRequest (size : Z) : Z :=
  AlignDown (size + ALLOC_ALIGNMENT - 1) ALLOC_ALIGNMENT.

End AggregateAllocator.

(** ** Layout of a page and the state between operations *)

(** [m'] keeps the eight bytes of the [Slot] at [s]. *)
Definition keeps (m m' : Mem) (s : Z) : Prop :=
  ∀ i, 0 ≤ i < 8 → m' (s + i) = m (s + i).

(** The free list of a page: [l] lists the slots met from [h] on, each
    holding the address of the next one.  What the last slot holds is not
    constrained: the source never writes it. *)
Fixpoint chain (m : Mem) (h : Z) (l : list Z) : Prop :=
  match l with
  | [] => True
  | s :: l' => h = s ∧ chain m (loadPtr m s) l'
  end.

(** The nonFull list as a doubly linked segment: from [cur], whose
    predecessor is [prv], the pages of [l] follow one another through their
    [next] members up to [nxt], and [prev] leads back. *)
Fixpoint dseg (pg : gmap Z Page) (prv cur : Z) (l : list Z) (nxt : Z) : Prop :=
  match l with
  | [] => cur = nxt
  | p :: l' =>
      cur = p ∧ p ≠ 0 ∧
      ∃ P, pg !! p = Some P ∧ prev P = prv ∧ dseg pg p (next P) l' nxt
  end.

Section Layout.

Context (ALLOC_PAGE_SIZE sizeof_Page size : Z).

(** The members [slotAlignment] and the value of [total] for the slot size
    the allocator is constructed with. *)
Definition stride : Z := AlignUp 16 size ALLOC_ALIGNMENT.

Definition slotsPerPage : Z :=
  (ALLOC_PAGE_SIZE - InitPage_offset sizeof_Page) / stride.

(** The platform and the slot size fit the types of the source: the page
    size is a [size_t] and a multiple of the allocation alignment, the slot
    size is a [uint16_t], and the slots of a page are counted by a
    [uint16_t], at least one of them. *)
Definition Configured : Prop :=
  ALLOC_PAGE_SIZE mod ALLOC_ALIGNMENT = 0 ∧
  ALLOC_PAGE_SIZE < 2 ^ 64 ∧
  0 ≤ size < 2 ^ 16 ∧
  1 ≤ slotsPerPage < 2 ^ 16.

Definition slot_at (p k : Z) : Z :=
  p + InitPage_offset sizeof_Page + k * stride.

Definition is_slot (p s : Z) : Prop :=
  ∃ k, 0 ≤ k < slotsPerPage ∧ s = slot_at p k.

Fixpoint slots_from (b : Z) (n : nat) : list Z :=
  match n with
  | O => []
  | S n' => b :: slots_from (b + stride) n'
  end.

(** A held page: where it lies, and its free list [l], which together
    with the slots the callers hold makes up the slots of the page. *)
Definition page_ok (m : Mem) (held : list Z) (p : Z) (P : Page) : Prop :=
  0 < p ∧ p mod ALLOC_PAGE_SIZE = 0 ∧ p + ALLOC_PAGE_SIZE ≤ 2 ^ 64 ∧
  total P = slotsPerPage ∧ free P ≤ slotsPerPage ∧
  ∃ l, chain m (header P) l ∧ Z.of_nat (length l) = free P ∧ NoDup l ∧
       (∀ s, s ∈ l → is_slot p s ∧ s ∉ held) ∧
       (∀ s, is_slot p s → s ∈ l ∨ s ∈ held).

(** The nonFull list holds the pages with a free slot, once each; a page
    off the list has null links. *)
Definition list_ok (pg : gmap Z Page) (head : Z) : Prop :=
  ∃ l, dseg pg 0 head l 0 ∧ NoDup l ∧
       ∀ p P, pg !! p = Some P →
              (p ∈ l ↔ 0 < free P) ∧ (p ∉ l → prev P = 0 ∧ next P = 0).

(** What holds of the allocator and the slots its callers hold.  Inside
    an operation one page, [x], may have all its slots free; between two
    operations there is no such page. *)
Record InvBut (x : Z) (c : Client) : Prop := mkInv {
  inv_size : slotSize (alloc c) = size;
  inv_stride : slotAlignment (alloc c) = stride;
  inv_pages : ∀ p P, pages (alloc c) !! p = Some P →
                     page_ok (mem (alloc c)) (live c) p P;
  inv_busy : ∀ p P, pages (alloc c) !! p = Some P → p ≠ x →
                    free P < slotsPerPage;
  inv_list : list_ok (pages (alloc c)) (nonFull (alloc c));
  inv_count : totalPages (alloc c) =
              Z.of_nat (base.size (pages (alloc c))) mod 2 ^ 32;
  inv_live : NoDup (live c) ∧
             ∀ r, r ∈ live c →
                  ∃ p, is_Some (pages (alloc c) !! p) ∧ is_slot p r;
  inv_pool : acquired (alloc c) ≡ₚ
             returned (alloc c) ++ elements (dom (pages (alloc c)))
}.

Definition Inv (c : Client) : Prop := InvBut 0 c.

End Layout.

(** ** Views of a state, for the statements below *)

(** The state [s] with new page headers, memory and list head. *)
Definition rebuild (s : State) (pg : gmap Z Page) (m : Mem) (nf : Z) : State :=
  mkState pg m nf (totalPages s) (slotSize s) (slotAlignment s)
          (acquired s) (returned s).

(** The list members of a page header, and the others. *)
Definition links (pg : gmap Z Page) (x : Z) : option (Z * Z) :=
  (λ P, (prev P, next P)) <$> pg !! x.

Definition core (pg : gmap Z Page) (x : Z) : option (Z * Z * Z) :=
  (λ P, (header P, total P, free P)) <$> pg !! x.

Section Halves.

Context (ALLOC_PAGE_SIZE sizeof_Page : Z).

(** [Allocate] first makes sure there is a page with a free slot, then
    takes a slot from the head of the list. *)
Definition Allocate_grow (fresh : Z) (junk : Page) : M unit :=
  cur <- CreatePage fresh junk ;;
  InitPage ALLOC_PAGE_SIZE sizeof_Page cur ;;;
  modify (set_nonFull cur) ;;;
  modify (λ s, set_totalPages ((totalPages s + 1) mod 2 ^ 32) s).

Definition Allocate_take : M Z :=
  list <- gets nonFull ;;
  result <- Page_Allocate list ;;
  avail <- Page_Available list ;;
  when (negb avail) (RemoveFromList list) ;;;
  (if negb (result =? 0) then
     size <- gets slotSize ;;
     ok <- memset_s result size 0 size ;;
     if ok then ret tt else abort (Fatal MemsetFail)
   else ret tt) ;;;
  ret result.

(** [Deallocate] first puts the slot back into its page, then gives the
    page back if that made it idle. *)
Definition Deallocate_put (cur slot : Z) : M unit :=
  avail <- Page_Available cur ;;
  when (negb avail) (AddToList cur) ;;;
  Page_Deallocate cur slot.

Definition Deallocate_sweep (cur : Z) : M unit :=
  empty <- Page_Empty cur ;;
  when empty
    (RemoveFromList cur ;;;
     DestroyPage cur ;;;
     modify (λ s, set_totalPages ((totalPages s - 1) mod 2 ^ 32) s)).

End Halves.

(** ** The rest of class PageAllocator *)

Definition set_slotSize (v : Z) (s : State) : State :=
  mkState (pages s) (mem s) (nonFull s) (totalPages s) v
          (slotAlignment s) (acquired s) (returned s).
Definition set_slotAlignment (v : Z) (s : State) : State :=
  mkState (pages s) (mem s) (nonFull s) (totalPages s) (slotSize s)
          v (acquired s) (returned s).

(** [PageAllocator()] *)
Definition PageAllocator_default (m : Mem) : State :=
  mkState ∅ m 0 0 0 0 [] [].

(** [void Init(uint16_t size)] *)
Definition PageAllocator_Init (size : Z) : M unit :=
  modify (set_slotSize size) ;;;
  modify (set_slotAlignment (AlignUp 16 size ALLOC_ALIGNMENT)).

(** The loop of [DestroyList], on the member [nonFull] as [Destroy] calls
    it.  It ends when the list does; the fuel stands for that. *)
Fixpoint DestroyList (fuel : nat) : M unit :=
  match fuel with
  | O => abort Timeout
  | S fuel' =>
      list <- gets nonFull ;;
      if negb (list =? 0) then
        let cur := list in
        P <- getPage list ;;
        modify (set_nonFull (next P)) ;;;
        DestroyPage cur ;;;
        DestroyList fuel'
      else ret tt
  end.

(** [void Destroy()]; every round of the loop gives one held page back, so
    one round more than there are held pages is enough. *)
Definition Destroy : M unit :=
  λ s, DestroyList (S (base.size (pages s))) s.

(** ** class StdContainerAllocator *)

Section StdContainerAllocator.

Context (RUN_ALLOC_LARGE_SIZE : Z) (RUNTYPE_SIZE_TO_RUN_IDX : Z → Z).

(** [sizeof(T)] of the element type; [size_type] is a 64-bit [size_t], so
  that [sizeof(T) * n] wraps at 2^64. *)
Context (sizeof_T : Z).

Definition StdContainerAllocator_allocate (n : Z) : delegate :=
AggregateAllocator_Allocate RUN_ALLOC_LARGE_SIZE RUNTYPE_SIZE_TO_RUN_IDX
  ((sizeof_T * n) mod 2 ^ 64).

Definition StdContainerAllocator_deallocate (p n : Z) : delegate :=
AggregateAllocator_Deallocate RUN_ALLOC_LARGE_SIZE RUNTYPE_SIZE_TO_RUN_IDX
  p ((sizeof_T * n) mod 2 ^ 64).

(** [static_cast<size_type>(~0) / sizeof(value_type)] *)
Definition StdContainerAllocator_max_size : Z := (2 ^ 64 - 1) / sizeof_T.

End StdContainerAllocator.

(** ** Shapes of the nonFull list *)

(** Following [next] from [cur] goes through the pages [l], in this order,
    to the null pointer, and each of them has all its slots free. *)
Fixpoint idle_list (pg : gmap Z Page) (cur : Z) (l : list Z) : bool :=
  match l with
  | [] => cur =? 0
  | p :: l' =>
      (cur =? p) && negb (p =? 0) &&
      match pg !! p with
      | Some P => (free P =? total P) && idle_list pg (next P) l'
      | None => false
      end
  end.

(** An operation keeps the slot size and the stride of the allocator and
    writes to [mem], the memory apart from the page headers, only where [R]
    holds. *)
Definition frames {A} (R : Z → Prop) (m : M A) : Prop :=
  ∀ s a s', m s = Ret a s' →
            slotSize s' = slotSize s ∧ slotAlignment s' = slotAlignment s ∧
            ∀ x, ¬ R x → mem s' x = mem s x.

(** ** A platform and a few callers, for the instances below *)

Definition client_of (d : Client) (r : result) : Client :=
  match r with Done c => c | _ => d end.

Definition is_Done (r : result) : bool :=
  match r with Done _ => true | _ => false end.

Definition state_of {A} (d : State) (o : outcome A) : State :=
  match o with Ret _ s => s | Abort _ => d end.

Definition returns (o : outcome Z) (r : Z) : bool :=
  match o with Ret a _ => a =? r | Abort _ => false end.

Definition demo_memory : Mem := λ _, 170.
Definition demo_junk : Page := mkPage 1 2 3 4 5.

(** Pages of 4096 bytes, a header of 32 bytes and slots of 1000 bytes: four
    slots per page. *)
Definition demo_start : Client := start demo_memory 1000.

Definition demo_ops : list op :=
  [OpAllocate 8192 demo_junk; OpAllocate 0 demo_junk].

Definition demo_client : Client :=
  client_of demo_start (run 4096 32 demo_ops demo_start).

Definition demo_page : Page := mkPage 10224 0 0 4 2.

(** The first Allocate of a new allocator, and a third one after
    [demo_ops]. *)
Definition demo_first : outcome Z :=
  PageAllocator_Allocate 4096 32 8192 demo_junk (alloc demo_start).

Definition demo_third : outcome Z :=
  PageAllocator_Allocate 4096 32 0 demo_junk (alloc demo_client).

(** Five allocations, which take two pages, given back in another order. *)
Definition demo_supplies : list (Z * Page) :=
  [(8192, demo_junk); (0, demo_junk); (0, demo_junk); (0, demo_junk);
   (12288, demo_junk)].

Definition demo_five : Client :=
  client_of demo_start
    (run 4096 32 (map (λ fj, OpAllocate fj.1 fj.2) demo_supplies) demo_start).

Definition demo_order : list Z := [10224; 12320; 8224; 11224; 9224].

(** Slots of 64 bytes on the same platform. *)
Definition demo_first_64 : outcome Z :=
  PageAllocator_Allocate 4096 32 4096 demo_junk (alloc (start demo_memory 64)).

(** A stand-in for the size classes of Common/RunType.h: one class per
    multiple of 8 bytes up to 2016. *)
Definition demo_LARGE_SIZE : Z := 2016.
Definition demo_SIZE_TO_RUN_IDX (size : Z) : Z := size / 8.


Definition is_Ret {A} (o : outcome A) : bool :=
  match o with Ret _ _ => true | Abort _ => false end.

(** One slot taken and given back. *)
Definition demo_back_ops : list op :=
  [OpAllocate 8192 demo_junk; OpDeallocate 8224].

Definition demo_back : Client :=
  client_of demo_start (run 4096 32 demo_back_ops demo_start).

(** The second slot of [demo_client] given back, and the Allocate after
    that. *)
Definition demo_put : outcome unit :=
  PageAllocator_Deallocate 4096 9224 (alloc demo_client).

Definition demo_retake : outcome Z :=
  PageAllocator_Allocate 4096 32 0 demo_junk
    (state_of (alloc demo_client) demo_put).

(** Two pages on the nonFull list, each with its four slots free. *)
Definition demo_idle : State :=
  mkState (<[8192 := mkPage 8224 0 12288 4 4]>
             (<[12288 := mkPage 12320 8192 0 4 4]> ∅))
          demo_memory 8192 2 1000 1000 [12288; 8192] [].

(** * Properties *)

(** ** Arithmetic of alignment *)

Lemma ALLOC_ALIGNMENT_eq : ALLOC_ALIGNMENT = 8.
Proof. reflexivity. Qed.

Lemma AlignDown_8_mod x : AlignDown x 8 mod 8 = 0.
Proof. unfold AlignDown. rewrite Z.mul_comm. apply Z_mod_mult. Qed.

Lemma AlignUp_8_mod w x : 3 ≤ w → AlignUp w x 8 mod 8 = 0.
Proof.
  intros Hw. unfold AlignUp, AlignDown.
  replace (2 ^ w) with (8 * 2 ^ (w - 3)).
  2:{ change 8 with (2 ^ 3). rewrite <- Z.pow_add_r by lia. f_equal. lia. }
  assert (0 < 2 ^ (w - 3)) by (apply Z.pow_pos_nonneg; lia).
  rewrite Z.mul_mod_distr_l by lia.
  rewrite Z.mul_comm. apply Z_mod_mult.
Qed.

Lemma AlignUp_16_small x :
  0 ≤ x < 2 ^ 16 → AlignUp 16 x 8 ≠ 0 →
  x ≤ AlignUp 16 x 8 ∧ 8 ≤ AlignUp 16 x 8 < 2 ^ 16 ∧ 1 ≤ x.
Proof.
  intros Hx. unfold AlignUp, AlignDown.
  pose proof (Z.div_mod (x + 8 - 1) 8 ltac:(lia)) as Hd.
  pose proof (Z.mod_pos_bound (x + 8 - 1) 8 ltac:(lia)) as Hb.
  destruct (Z_lt_le_dec (8 * ((x + 8 - 1) / 8)) (2 ^ 16)) as [Hlt|Hge].
  - rewrite Z.mod_small by lia. intros Hne. lia.
  - intros Hne. exfalso.
    assert (8 * ((x + 8 - 1) / 8) = 2 ^ 16) as E by lia.
    rewrite E in Hne. rewrite Z.mod_same in Hne by lia. done.
Qed.

(** ** Memory *)

Lemma loadN_ext n m m' a :
  (∀ i, 0 ≤ i < Z.of_nat n → m' (a + i) = m (a + i)) →
  loadN n m' a = loadN n m a.
Proof.
  revert a. induction n as [|n IH]; intros a H; simpl; [done|].
  rewrite <- (Z.add_0_r a) at 1 3. rewrite H by lia. rewrite Z.add_0_r.
  f_equal. f_equal. apply IH. intros i Hi.
  replace (a + 1 + i) with (a + (1 + i)) by lia. apply H. lia.
Qed.

Lemma loadN_bytes n m a v :
  (∀ i, 0 ≤ i < Z.of_nat n → m (a + i) mod 256 = (v / 256 ^ i) mod 256) →
  loadN n m a = v mod 256 ^ Z.of_nat n.
Proof.
  revert a v. induction n as [|n IH]; intros a v H.
  - simpl. by rewrite Z.mod_1_r.
  - cbn [loadN]. rewrite (IH (a + 1) (v / 256)).
    + specialize (H 0 ltac:(lia)). rewrite Z.add_0_r in H. rewrite H.
      change (256 ^ 0) with 1. rewrite Z.div_1_r.
      rewrite Nat2Z.inj_succ, Z.pow_succ_r by lia.
      rewrite Z.rem_mul_r; [done|lia|]. apply Z.pow_pos_nonneg; lia.
    + intros i Hi. replace (a + 1 + i) with (a + (i + 1)) by lia.
      rewrite H by lia. rewrite Z.pow_add_r by lia.
      change (256 ^ 1) with 256. rewrite (Z.mul_comm (256 ^ i)).
      rewrite Z.div_div; [done|lia|]. apply Z.pow_pos_nonneg; lia.
Qed.

Lemma loadPtr_storePtr m a v :
  0 ≤ v < 2 ^ 64 → loadPtr (storePtr m a v) a = v.
Proof.
  intros Hv. unfold loadPtr. rewrite (loadN_bytes 8 _ a v).
  - apply Z.mod_small. done.
  - intros i Hi. unfold storePtr.
    replace ((a <=? a + i) && (a + i <? a + 8)) with true.
    2:{ symmetry. apply andb_true_iff. split; [apply Z.leb_le|apply Z.ltb_lt]; lia. }
    replace (a + i - a) with i by lia. apply Z.mod_mod. lia.
Qed.

Lemma loadPtr_keeps m m' s : keeps m m' s → loadPtr m' s = loadPtr m s.
Proof. intros H. apply loadN_ext. intros i Hi. apply H. simpl in Hi. lia. Qed.

Lemma keeps_storePtr m a v s : s + 8 ≤ a ∨ a + 8 ≤ s → keeps m (storePtr m a v) s.
Proof.
  intros H i Hi. unfold storePtr.
  destruct (Z.leb_spec a (s + i)), (Z.ltb_spec (s + i) (a + 8)); simpl; try done; lia.
Qed.

Lemma keeps_memset m a c len s :
  s + 8 ≤ a ∨ a + len ≤ s → keeps m (memset m a c len) s.
Proof.
  intros H i Hi. unfold memset.
  destruct (Z.leb_spec a (s + i)), (Z.ltb_spec (s + i) (a + len)); simpl; try done; lia.
Qed.

Lemma keeps_poke m a b s : a < s ∨ s + 8 ≤ a → keeps m (poke m a b) s.
Proof.
  intros H i Hi. unfold poke.
  destruct (Z.eqb_spec (s + i) a); [lia|done].
Qed.

Lemma chain_keeps m m' h l :
  (∀ s, s ∈ l → keeps m m' s) → chain m h l → chain m' h l.
Proof.
  revert h. induction l as [|s l IH]; intros h Hk; simpl; [done|].
  intros [-> Hc]. split; [done|].
  rewrite (loadPtr_keeps m m' s) by (apply Hk; left).
  apply IH; [|done]. intros x Hx. apply Hk. by right.
Qed.

Section Geometry.

Context (ALLOC_PAGE_SIZE sizeof_Page size : Z).
Context (Hcfg : Configured ALLOC_PAGE_SIZE sizeof_Page size).

Local Abbreviation PAGE := ALLOC_PAGE_SIZE.
Local Abbreviation off := (InitPage_offset sizeof_Page).
Local Abbreviation str := (stride size).
Local Abbreviation T := (slotsPerPage ALLOC_PAGE_SIZE sizeof_Page size).
Local Abbreviation is_slot := (is_slot ALLOC_PAGE_SIZE sizeof_Page size).
Local Abbreviation slot_at := (slot_at sizeof_Page size).

Lemma cfg_stride : str mod 8 = 0 ∧ 8 ≤ str < 2 ^ 16 ∧ size ≤ str ∧ 1 ≤ size.
Proof.
  destruct Hcfg as (_ & _ & Hs & Ht & _).
  assert (str ≠ 0) as Hne.
  { intros E. unfold slotsPerPage in Ht. rewrite E, Z.div_0_r in Ht. lia. }
  unfold stride in *. rewrite ALLOC_ALIGNMENT_eq in *.
  pose proof (AlignUp_16_small size Hs Hne).
  pose proof (AlignUp_8_mod 16 size ltac:(lia)). lia.
Qed.

Lemma cfg_offset : 0 ≤ off ∧ off mod 8 = 0.
Proof.
  unfold InitPage_offset. rewrite ALLOC_ALIGNMENT_eq. split.
  - unfold AlignUp. apply Z.mod_pos_bound. lia.
  - apply AlignUp_8_mod. lia.
Qed.

Lemma cfg_fit : off + T * str ≤ PAGE ∧ 0 < PAGE ∧ off + str ≤ PAGE.
Proof.
  destruct Hcfg as (_ & _ & _ & Ht & _).
  pose proof cfg_stride as (_ & Hs & _). pose proof cfg_offset as [Ho _].
  unfold slotsPerPage in *.
  pose proof (Z.mul_div_le (PAGE - off) str ltac:(lia)).
  nia.
Qed.

Lemma cfg_count : slotCount ALLOC_PAGE_SIZE sizeof_Page str = T.
Proof.
  pose proof Hcfg as (_ & Hp & _ & Ht).
  pose proof cfg_fit as (_ & ? & ?). pose proof cfg_stride as (_ & ? & _).
  pose proof cfg_offset as [? _].
  unfold slotCount. rewrite (Z.mod_small (PAGE - off)) by lia.
  apply Z.mod_small. unfold slotsPerPage in *. lia.
Qed.

Lemma slot_bounds p s : is_slot p s → p + off ≤ s ∧ s + str ≤ p + PAGE.
Proof.
  intros (k & Hk & ->). unfold slot_at.
  pose proof cfg_fit as (? & _). pose proof cfg_stride as (_ & ? & _).
  nia.
Qed.

Lemma slot_pos p s : 0 < p → is_slot p s → 0 < s ∧ s ≠ 0.
Proof.
  intros Hp Hs. apply slot_bounds in Hs. pose proof cfg_offset. lia.
Qed.

Lemma slot_mod8 p s : p mod PAGE = 0 → is_slot p s → s mod 8 = 0.
Proof.
  intros Hp (k & Hk & ->). unfold slot_at.
  pose proof Hcfg as (H8 & _). rewrite ALLOC_ALIGNMENT_eq in H8.
  pose proof cfg_offset as [_ Ho]. pose proof cfg_stride as (Hs & _).
  pose proof cfg_fit as (_ & Hpos & _).
  apply Z.mod_divide in Hp; [|lia]. apply Z.mod_divide in H8; [|lia].
  apply Z.mod_divide in Ho; [|lia]. apply Z.mod_divide in Hs; [|lia].
  apply Z.mod_divide; [lia|].
  apply Z.divide_add_r; [apply Z.divide_add_r|].
  - by apply (Z.divide_trans _ PAGE).
  - done.
  - by apply Z.divide_mul_r.
Qed.

Lemma page_AlignDown p a : p mod PAGE = 0 → p ≤ a < p + PAGE → AlignDown a PAGE = p.
Proof.
  intros Hp Ha. pose proof cfg_fit as (_ & Hpos & _).
  unfold AlignDown.
  apply Z_div_exact_full_2 in Hp; [|lia].
  rewrite <- (Z.div_unique a PAGE (p / PAGE) (a - p)); lia.
Qed.

Lemma slot_AlignDown p s : p mod PAGE = 0 → is_slot p s → AlignDown s PAGE = p.
Proof.
  intros Hp Hs. apply slot_bounds in Hs.
  pose proof cfg_offset. pose proof cfg_stride.
  apply page_AlignDown; [done|lia].
Qed.

Lemma slot_page_unique p q s :
  p mod PAGE = 0 → q mod PAGE = 0 → is_slot p s → is_slot q s → p = q.
Proof.
  intros Hp Hq Hs1 Hs2.
  rewrite <- (slot_AlignDown p s Hp Hs1). by apply slot_AlignDown.
Qed.

Lemma slot_sep p q a b :
  p mod PAGE = 0 → q mod PAGE = 0 → is_slot p a → is_slot q b → a ≠ b →
  a + str ≤ b ∨ b + str ≤ a.
Proof.
  intros Hp Hq Ha Hb Hne.
  destruct (decide (p = q)) as [->|Hpq].
  - destruct Ha as (k & Hk & ->), Hb as (j & Hj & ->).
    unfold slot_at in *. pose proof cfg_stride as (_ & ? & _).
    assert (k ≠ j) by (intros ->; done). nia.
  - pose proof (slot_bounds _ _ Ha). pose proof (slot_bounds _ _ Hb).
    pose proof cfg_offset as [? _]. pose proof cfg_fit as (_ & Hpos & _).
    apply Z_div_exact_full_2 in Hp; [|lia]. apply Z_div_exact_full_2 in Hq; [|lia].
    assert (p / PAGE ≠ q / PAGE) by (intros E; apply Hpq; rewrite Hp, Hq, E; done).
    nia.
Qed.

Lemma slots_from_length b n : length (slots_from size b n) = n.
Proof. revert b. induction n; intros; simpl; [done|]. by rewrite IHn. Qed.

Lemma elem_of_slots_from b n s :
  s ∈ slots_from size b n ↔ ∃ k, 0 ≤ k < Z.of_nat n ∧ s = b + k * str.
Proof.
  revert b. induction n as [|n IH]; intros b; simpl.
  - split; [intros H; inversion H|intros (k & ? & _); lia].
  - rewrite elem_of_cons, IH. split.
    + intros [->|(k & Hk & ->)].
      * exists 0. lia.
      * exists (k + 1). lia.
    + intros (k & Hk & ->). destruct (decide (k = 0)) as [->|].
      * left. lia.
      * right. exists (k - 1). lia.
Qed.

Lemma slots_from_NoDup b n : NoDup (slots_from size b n).
Proof.
  revert b. induction n as [|n IH]; intros b; simpl; constructor; [|done].
  rewrite elem_of_slots_from. intros (k & Hk & E).
  pose proof cfg_stride as (_ & ? & _). nia.
Qed.

Lemma is_slot_slots_from p s :
  is_slot p s ↔ s ∈ slots_from size (p + off) (Z.to_nat T).
Proof.
  rewrite elem_of_slots_from. unfold is_slot, slot_at.
  destruct Hcfg as (_ & _ & _ & Ht).
  rewrite Z2Nat.id by lia. done.
Qed.

(** A duplicate-free list of [T] slots of a page lists all of them. *)
Lemma slots_all p l :
  NoDup l → (∀ s, s ∈ l → is_slot p s) → Z.of_nat (length l) = T →
  ∀ s, is_slot p s → s ∈ l.
Proof.
  intros Hnd Hin Hlen s Hs.
  assert (l ⊆+ slots_from size (p + off) (Z.to_nat T)) as Hsub.
  { apply NoDup_submseteq; [done|]. intros x Hx. by apply is_slot_slots_from, Hin. }
  apply submseteq_length_Permutation in Hsub.
  - rewrite Hsub. by apply is_slot_slots_from.
  - rewrite slots_from_length. lia.
Qed.

End Geometry.

(** ** The operations on a known state *)

Ltac run_monad :=
  unfold bind, gets, modify, ret, abort, when, getPage, updPage, rebuild,
    set_pages, set_mem, set_nonFull, set_totalPages, log_acquired,
    log_returned, with_header, with_prev, with_next, with_total, with_free;
  simpl.

Lemma Page_Available_spec s p P :
  pages s !! p = Some P →
  Page_Available p s = Ret (negb (free P =? 0)) s.
Proof. intros H. unfold Page_Available. run_monad. by rewrite H. Qed.

Lemma Page_Empty_spec s p P :
  pages s !! p = Some P →
  Page_Empty p s = Ret (free P =? total P) s.
Proof. intros H. unfold Page_Empty. run_monad. by rewrite H. Qed.

Lemma Page_Allocate_spec s p P :
  pages s !! p = Some P → header P ≠ 0 →
  Page_Allocate p s =
  Ret (header P)
      (rebuild s (<[p := mkPage (loadPtr (mem s) (header P)) (prev P) (next P)
                                (total P) ((free P - 1) mod 2 ^ 16)]> (pages s))
               (mem s) (nonFull s)).
Proof.
  intros H Hh. destruct s; simpl in *. unfold Page_Allocate. run_monad.
  rewrite H. destruct (Z.eqb_spec (header P) 0); [done|]. simpl.
  rewrite H. simpl. rewrite lookup_insert_eq. simpl.
  by rewrite insert_insert_eq.
Qed.

Lemma Page_Deallocate_spec s p P slot :
  pages s !! p = Some P →
  Page_Deallocate p slot s =
  Ret tt
      (rebuild s (<[p := mkPage slot (prev P) (next P) (total P)
                                ((free P + 1) mod 2 ^ 16)]> (pages s))
               (storePtr (mem s) slot (header P)) (nonFull s)).
Proof.
  intros H. destruct s; simpl in *. unfold Page_Deallocate. run_monad.
  rewrite H. simpl. rewrite H. simpl. rewrite lookup_insert_eq. simpl.
  by rewrite insert_insert_eq.
Qed.

(** ** The nonFull list *)

Lemma links_Some pg x P : pg !! x = Some P → links pg x = Some (prev P, next P).
Proof. unfold links. by intros ->. Qed.

Lemma links_inv pg x a b :
  links pg x = Some (a, b) → ∃ P, pg !! x = Some P ∧ prev P = a ∧ next P = b.
Proof.
  unfold links. destruct (pg !! x) as [P|]; simpl; [|done].
  intros [= <- <-]. eauto.
Qed.

Lemma core_inv pg x P' pg' :
  core pg' x = core pg x → pg' !! x = Some P' →
  ∃ P, pg !! x = Some P ∧ header P = header P' ∧ total P = total P' ∧ free P = free P'.
Proof.
  unfold core. intros E H. rewrite H in E. simpl in E.
  destruct (pg !! x) as [P|]; simpl in E; [|done].
  injection E as -> -> ->. eauto.
Qed.

Lemma dseg_ext pg pg' prv cur l nxt :
  (∀ x, x ∈ l → links pg' x = links pg x) →
  dseg pg prv cur l nxt → dseg pg' prv cur l nxt.
Proof.
  revert prv cur. induction l as [|p l IH]; intros prv cur Hl; simpl; [done|].
  intros (-> & Hp & P & HP & Hprev & Hrest).
  split; [done|]. split; [done|].
  assert (links pg' p = Some (prev P, next P)) as HL.
  { rewrite Hl by left. by apply links_Some. }
  apply links_inv in HL as (P' & HP' & E1 & E2).
  exists P'. split; [done|]. split; [congruence|].
  rewrite E2. apply IH; [|done]. intros x Hx. apply Hl. by right.
Qed.

Lemma dseg_head pg prv cur l : dseg pg prv cur l 0 → cur = 0 ↔ l = [].
Proof.
  destruct l as [|p l]; simpl.
  - intros ->. done.
  - intros (-> & Hp & _). split; [done|discriminate].
Qed.

Lemma dseg_elem pg prv cur l nxt x :
  dseg pg prv cur l nxt → x ∈ l → x ≠ 0 ∧ is_Some (pg !! x).
Proof.
  revert prv cur. induction l as [|p l IH]; intros prv cur; simpl.
  - intros _ H. inversion H.
  - intros (-> & Hp & P & HP & _ & Hrest) [->|Hx]%elem_of_cons; [eauto|].
    by eapply IH.
Qed.

Lemma on_list_dseg pg prv cur l x :
  dseg pg prv cur l 0 → on_list pg cur x ↔ x ∈ l.
Proof.
  intros Hd. split.
  - intros Hon. revert prv l Hd.
    induction Hon as [p Hp|cur P p Hcur HP Hon IH]; intros prv l Hd.
    + destruct l as [|y l]; simpl in Hd; [done|].
      destruct Hd as (-> & _). left.
    + destruct l as [|y l]; simpl in Hd; [done|].
      destruct Hd as (-> & _ & P' & HP' & _ & Hrest).
      right. rewrite HP in HP'. injection HP' as <-. by eapply IH.
  - revert prv cur Hd. induction l as [|y l IH]; intros prv cur Hd Hx.
    + inversion Hx.
    + simpl in Hd. destruct Hd as (-> & Hy & P & HP & _ & Hrest).
      apply elem_of_cons in Hx as [->|Hx].
      * by constructor.
      * eapply on_list_next; [done..|]. by eapply IH.
Qed.

Lemma dseg_suffix pg prv cur l1 l2 nxt :
  dseg pg prv cur (l1 ++ l2) nxt → ∃ prv' cur', dseg pg prv' cur' l2 nxt.
Proof.
  revert prv cur. induction l1 as [|x l1 IH]; intros prv cur; simpl; [eauto|].
  intros (_ & _ & X & _ & _ & Hrest). eauto.
Qed.

(** Unlinking [p], which follows [a] on the list: [a] and the successor of
    [p] are joined, and [p] is left with null links. *)
Lemma dseg_unlink pg pg' prv cur l1 a p l2 A P :
  NoDup (l1 ++ a :: p :: l2) →
  dseg pg prv cur (l1 ++ a :: p :: l2) 0 →
  pg !! a = Some A → pg !! p = Some P →
  links pg' a = Some (prev A, next P) →
  (∀ N, next P ≠ 0 → pg !! next P = Some N →
        links pg' (next P) = Some (a, next N)) →
  (∀ x, x ≠ a → x ≠ p → x ≠ next P → links pg' x = links pg x) →
  dseg pg' prv cur (l1 ++ a :: l2) 0.
Proof.
  intros Hnd Hd HA HP HA' HN' Hother.
  revert prv cur Hd. induction l1 as [|x l1 IH]; intros prv cur Hd.
  - simpl in *. destruct Hd as (-> & Ha & A0 & HA0 & Hprev & Hrest).
    rewrite HA in HA0. injection HA0 as <-.
    destruct Hrest as (Hnext & Hp & P0 & HP0 & HprevP & Hrest).
    rewrite HP in HP0. injection HP0 as <-.
    apply links_inv in HA' as (A' & HA' & E1 & E2).
    split; [done|]. split; [done|]. exists A'. split; [done|]. split; [congruence|].
    rewrite E2. apply NoDup_cons in Hnd as [Ha1 Hnd].
    apply NoDup_cons in Hnd as [Hp1 Hnd].
    destruct l2 as [|q l2]; simpl in *; [done|].
    destruct Hrest as (Hq & Hq0 & Q & HQ & HprevQ & Hrest).
    split; [done|]. split; [done|].
    rewrite Hq in HN'. specialize (HN' Q Hq0 HQ).
    apply links_inv in HN' as (Q' & HQ' & E3 & E4).
    exists Q'. split; [done|]. split; [done|]. rewrite E4.
    apply NoDup_cons in Hnd as [Hq1 Hnd].
    eapply dseg_ext; [|exact Hrest].
    intros x Hx. apply Hother.
    + intros ->. apply Ha1. by do 2 right.
    + intros ->. apply Hp1. by right.
    + rewrite Hq. by intros ->.
  - pose proof Hd as Hd0.
    simpl in *. destruct Hd as (-> & Hx & X & HX & Hprev & Hrest).
    apply NoDup_cons in Hnd as [Hx1 Hnd].
    split; [done|]. split; [done|].
    assert (links pg' x = Some (prev X, next X)) as HL.
    { rewrite Hother; [by apply links_Some|..].
      - intros ->. apply Hx1. apply elem_of_app. right. left.
      - intros ->. apply Hx1. apply elem_of_app. right. right. left.
      - intros E.
        destruct (dseg_suffix _ _ _ (x :: l1) _ _ Hd0) as (? & ? & Hd2).
        simpl in Hd2. destruct Hd2 as (_ & _ & A0 & _ & _ & _ & _ & P0 & HP0 & _ & Hd2).
        rewrite HP in HP0. injection HP0 as <-.
        destruct l2 as [|q l2]; simpl in Hd2.
        + congruence.
        + destruct Hd2 as (Hq & _). apply Hx1.
          apply elem_of_app. right. do 2 right. rewrite E, Hq. left. }
    apply links_inv in HL as (X' & HX' & E1 & E2).
    exists X'. split; [done|]. split; [congruence|]. rewrite E2. by apply IH.
Qed.

Ltac map_cases :=
  repeat (rewrite lookup_insert; case_decide; subst; simpl); try done.

Lemma AddToList_spec s p P l :
  pages s !! p = Some P → p ≠ 0 → prev P = 0 → p ∉ l → NoDup l →
  dseg (pages s) 0 (nonFull s) l 0 →
  ∃ pg', AddToList p s = Ret tt (rebuild s pg' (mem s) p) ∧
         dseg pg' 0 p (p :: l) 0 ∧
         (∀ x, core pg' x = core (pages s) x) ∧
         (∀ x, x ∉ p :: l → pg' !! x = pages s !! x).
Proof.
  intros HP Hp Hprev Hnin Hnd Hd.
  destruct s as [pg m nf tp ss sa acq rt]; simpl in *.
  unfold AddToList. run_monad.
  destruct l as [|h l]; simpl in Hd.
  - subst nf. simpl. rewrite HP. simpl. eexists. split; [done|].
    split; [|split].
    + simpl. split; [done|]. split; [done|]. eexists. rewrite lookup_insert_eq.
      split; [done|]. simpl. done.
    + intros x. unfold core. map_cases. by rewrite HP.
    + intros x Hx. rewrite lookup_insert_ne; [done|].
      intros ->. apply Hx. left.
  - destruct Hd as (-> & Hh & H & HH & HprevH & Hrest).
    destruct (Z.eqb_spec h 0) as [|_]; [done|]. simpl.
    rewrite HH. simpl.
    assert (p ≠ h) as Hph by (intros ->; apply Hnin; left).
    rewrite lookup_insert_ne by done. rewrite HP. simpl.
    eexists. split; [done|]. split; [|split].
    + simpl. split; [done|]. split; [done|]. eexists. rewrite lookup_insert_eq.
      split; [done|]. simpl. split; [done|]. split; [done|]. split; [done|].
      eexists. rewrite lookup_insert_ne by done. rewrite lookup_insert_eq.
      split; [done|]. simpl. split; [done|].
      eapply dseg_ext; [|exact Hrest]. intros x Hx. unfold links.
      rewrite !lookup_insert_ne; [done|..].
      * intros ->. by apply NoDup_cons in Hnd as [? _].
      * intros ->. apply Hnin. by right.
    + intros x. unfold core. map_cases; by rewrite ?HP, ?HH.
    + intros x Hx. rewrite !lookup_insert_ne; [done|..].
      * intros ->. apply Hx. right. left.
      * intros ->. apply Hx. left.
Qed.

Lemma RemoveFromList_spec s p l :
  dseg (pages s) 0 (nonFull s) l 0 → NoDup l → p ∈ l →
  ∃ pg' nf' l1 l2,
    RemoveFromList p s = Ret tt (rebuild s pg' (mem s) nf') ∧
    l = l1 ++ p :: l2 ∧
    dseg pg' 0 nf' (l1 ++ l2) 0 ∧
    links pg' p = Some (0, 0) ∧
    (∀ x, core pg' x = core (pages s) x) ∧
    (∀ x, x ∉ l → pg' !! x = pages s !! x).
Proof.
  intros Hd Hnd Hin. destruct s as [pg m nf tp ss sa acq rt]; simpl in *.
  apply list_elem_of_split in Hin as (l1 & l2 & ->).
  unfold RemoveFromList. run_monad.
  destruct l1 as [|a l0 _] using rev_ind.
  - (* [p] is the head *)
    simpl in Hd. destruct Hd as (-> & Hp & P & HP & Hprev & Hrest).
    rewrite HP. simpl. rewrite Z.eqb_refl. simpl.
    apply NoDup_cons in Hnd as [Hp1 Hnd].
    destruct l2 as [|q l2]; simpl in Hrest.
    + rewrite Hrest. simpl. rewrite HP. simpl. rewrite lookup_insert_eq. simpl.
      eexists _, _, [], []. split; [done|]. split; [done|].
      split; [done|]. split; [|split].
      * unfold links. by map_cases.
      * intros x. unfold core. map_cases. by rewrite HP.
      * intros x Hx. rewrite !lookup_insert_ne; [done|..];
          intros ->; apply Hx; left.
    + destruct Hrest as (Hq & Hq0 & Q & HQ & HprevQ & Hrest).
      rewrite Hq. destruct (Z.eqb_spec q 0) as [|_]; [done|]. simpl.
      rewrite HQ. simpl.
      assert (q ≠ p) as Hqp by (intros ->; apply Hp1; left).
      rewrite lookup_insert_ne by done. rewrite HP. simpl.
      rewrite lookup_insert_eq. simpl.
      apply NoDup_cons in Hnd as [Hq1 Hnd].
      eexists _, _, [], (q :: l2). split; [done|]. split; [done|].
      split; [|split; [|split]].
      * simpl. split; [done|]. split; [done|]. eexists.
        rewrite !lookup_insert_ne by done. rewrite lookup_insert_eq.
        split; [done|]. simpl. split; [done|].
        eapply dseg_ext; [|exact Hrest]. intros x Hx. unfold links.
        rewrite !lookup_insert_ne; [done|..].
        -- by intros ->.
        -- intros ->. apply Hp1. by right.
        -- intros ->. apply Hp1. by right.
      * unfold links. by map_cases.
      * intros x. unfold core. map_cases; by rewrite ?HP, ?HQ.
      * intros x Hx. rewrite !lookup_insert_ne; [done|..].
        -- intros ->. apply Hx. right. left.
        -- intros ->. apply Hx. left.
        -- intros ->. apply Hx. left.
  - (* [p] follows [a] *)
    rewrite <- app_assoc in *. simpl in *.
    destruct (dseg_suffix _ _ _ _ _ _ Hd) as (prv' & cur' & Hd2).
    simpl in Hd2.
    destruct Hd2 as (_ & Ha & A & HA & _ & Hnext & Hp & P & HP & HprevP & Hrest).
    rewrite HP. simpl.
    assert (a ≠ p) as Hap.
    { intros ->. apply NoDup_app in Hnd as (_ & _ & Hnd).
      apply NoDup_cons in Hnd as [Hnd _]. apply Hnd. left. }
    assert (p ≠ nf) as Hpnf.
    { intros E0. apply NoDup_app in Hnd as (_ & Hnd & Hnd2).
      destruct l0 as [|x l0]; simpl in Hd.
      - destruct Hd as (E & _). congruence.
      - destruct Hd as (E & _). apply (Hnd p); [rewrite E0, E; left|].
        right. left. }
    destruct (Z.eqb_spec p nf) as [|_]; [done|]. simpl.
    rewrite HprevP. destruct (Z.eqb_spec a 0) as [|_]; [done|]. simpl.
    rewrite HA. simpl.
    destruct l2 as [|q l2]; simpl in Hrest.
    + rewrite Hrest. simpl.
      rewrite lookup_insert_ne by done. rewrite HP. simpl.
      rewrite lookup_insert_eq. simpl.
      eexists _, _, (l0 ++ [a]), []. rewrite <- !app_assoc. simpl.
      split; [done|]. split; [done|]. split; [|split; [|split]].
      * eapply (dseg_unlink pg _ 0 nf l0 a p [] A P); try done.
        -- unfold links. map_cases. by rewrite Hrest.
        -- unfold links. intros x ? ? ?. by map_cases.
      * unfold links. by map_cases.
      * intros x. unfold core. map_cases; by rewrite ?HP, ?HA.
      * intros x Hx. rewrite !lookup_insert_ne; [done|..].
        -- intros ->. apply Hx, elem_of_app. right. left.
        -- intros ->. apply Hx, elem_of_app. right. right. left.
        -- intros ->. apply Hx, elem_of_app. right. right. left.
    + destruct Hrest as (Hq & Hq0 & Q & HQ & HprevQ & Hrest).
      rewrite Hq. destruct (Z.eqb_spec q 0) as [|_]; [done|]. simpl.
      assert (q ≠ a ∧ q ≠ p) as [Hqa Hqp].
      { apply NoDup_app in Hnd as (_ & _ & Hnd).
        apply NoDup_cons in Hnd as [Hn1 Hnd].
        apply NoDup_cons in Hnd as [Hn2 Hnd].
        split; intros ->; [apply Hn1; right; left|apply Hn2; left]. }
      rewrite lookup_insert_ne by done. rewrite HQ. simpl.
      rewrite !lookup_insert_ne by done. rewrite HP. simpl.
      rewrite lookup_insert_eq. simpl.
      eexists _, _, (l0 ++ [a]), (q :: l2). rewrite <- !app_assoc. simpl.
      split; [done|]. split; [done|]. split; [|split; [|split]].
      * eapply (dseg_unlink pg _ 0 nf l0 a p (q :: l2) A P); try done.
        -- unfold links. map_cases. all: by rewrite ?Hq.
        -- rewrite Hq. intros N _ HN. rewrite HQ in HN. injection HN as <-.
           unfold links. by map_cases.
        -- rewrite Hq. unfold links. intros x ? ? ?. by map_cases.
      * unfold links. by map_cases.
      * intros x. unfold core. map_cases; by rewrite ?HP, ?HA, ?HQ.
      * intros x Hx. rewrite !lookup_insert_ne; [done|..].
        -- intros ->. apply Hx, elem_of_app. right. left.
        -- intros ->. apply Hx, elem_of_app. right. right. right. left.
        -- intros ->. apply Hx, elem_of_app. right. right. left.
        -- intros ->. apply Hx, elem_of_app. right. right. left.
Qed.

(** ** Held slots and held pages *)

Lemma remove_one_subset x l y : y ∈ remove_one x l → y ∈ l.
Proof.
  induction l as [|z l IH]; simpl; [done|].
  destruct (Z.eqb_spec x z); [by right|].
  intros [->|H]%elem_of_cons; [left|right; auto].
Qed.

Lemma remove_one_other x l y : y ∈ l → y ≠ x → y ∈ remove_one x l.
Proof.
  induction l as [|z l IH]; simpl; [done|].
  intros [->|H]%elem_of_cons Hne.
  - destruct (Z.eqb_spec x z); [congruence|left].
  - destruct (Z.eqb_spec x z); [done|right; auto].
Qed.

Lemma remove_one_NoDup x l : NoDup l → NoDup (remove_one x l) ∧ x ∉ remove_one x l.
Proof.
  induction 1 as [|z l Hz Hnd IH]; simpl.
  - split; [constructor|]. intros H; inversion H.
  - destruct (Z.eqb_spec x z) as [->|Hne]; [done|].
    destruct IH as [IH1 IH2]. split.
    + constructor; [|done]. intros H. by apply remove_one_subset in H.
    + intros [?|?]%elem_of_cons; done.
Qed.

Lemma remove_one_length x l :
  x ∈ l → S (length (remove_one x l)) = length l.
Proof.
  induction l as [|z l IH]; simpl; [intros H; inversion H|].
  destruct (Z.eqb_spec x z) as [->|Hne]; [done|].
  intros [?|H]%elem_of_cons; [done|]. simpl. by rewrite IH.
Qed.

Lemma NoDup_unsplit (l1 l2 : list Z) p :
  NoDup (l1 ++ p :: l2) →
  NoDup (l1 ++ l2) ∧ ∀ q, q ∈ l1 ++ l2 ↔ q ∈ l1 ++ p :: l2 ∧ q ≠ p.
Proof.
  intros Hnd. apply NoDup_app in Hnd as (H1 & H12 & H2).
  apply NoDup_cons in H2 as [Hp H2]. split.
  - apply NoDup_app. split; [done|]. split; [|done].
    intros x Hx Hx2. apply (H12 x Hx). by right.
  - intros q. rewrite !elem_of_app, elem_of_cons. split.
    + intros [Hq|Hq].
      * split; [by left|]. intros ->. apply (H12 p Hq). left.
      * split; [by right; right|]. by intros ->.
    + intros [[Hq|[->|Hq]] Hne]; [by left|done|by right].
Qed.

Lemma core_dom pg pg' : (∀ x, core pg' x = core pg x) → dom pg' = dom pg.
Proof.
  intros H. apply set_eq. intros x. rewrite !elem_of_dom.
  specialize (H x). unfold core in H.
  rewrite <- !(fmap_is_Some (λ P, (header P, total P, free P))).
  by rewrite H.
Qed.

Lemma core_size pg pg' :
  (∀ x, core pg' x = core pg x) → base.size pg' = base.size pg.
Proof.
  intros H. rewrite <- !(size_dom (D := gset Z)). by rewrite (core_dom _ _ H).
Qed.

(** ** What the operations write *)

Lemma frames_ret {A} R (a : A) : frames R (ret a).
Proof. intros s a' s' [= <- <-]. done. Qed.

Lemma frames_abort {A} R f : frames R (abort (A := A) f).
Proof. intros s a s' H. discriminate. Qed.

Lemma frames_gets {A} R (f : State → A) : frames R (gets f).
Proof. intros s a s' [= <- <-]. done. Qed.

Lemma frames_bind {A B} R (m : M A) (k : A → M B) :
  frames R m → (∀ a, frames R (k a)) → frames R (bind m k).
Proof.
  intros Hm Hk s b s'. unfold bind.
  destruct (m s) as [a s1|] eqn:E; [|done]. intros Hks.
  destruct (Hm s a s1 E) as (E1 & E2 & E3).
  destruct (Hk a s1 b s' Hks) as (F1 & F2 & F3).
  split; [congruence|]. split; [congruence|].
  intros x Hx. rewrite F3, E3; done.
Qed.

Lemma frames_when R b m : frames R m → frames R (when b m).
Proof. destruct b; [done|]. intros _. apply frames_ret. Qed.

Lemma frames_mono {A} (R R' : Z → Prop) (m : M A) :
  (∀ x, R x → R' x) → frames R m → frames R' m.
Proof.
  intros HR Hm s a s' E. destruct (Hm s a s' E) as (E1 & E2 & E3).
  split; [done|]. split; [done|]. intros x Hx. apply E3. auto.
Qed.

Lemma frames_modify R (f : State → State) :
  (∀ s, slotSize (f s) = slotSize s ∧ slotAlignment (f s) = slotAlignment s ∧
        mem (f s) = mem s) →
  frames R (modify f).
Proof.
  intros Hf s a s' [= _ <-]. destruct (Hf s) as (-> & -> & ->). done.
Qed.

Lemma frames_getPage R p : frames R (getPage p).
Proof.
  intros s a s'. unfold getPage. destruct (pages s !! p); [|done].
  by intros [= _ <-].
Qed.

Lemma frames_updPage R p f : frames R (updPage p f).
Proof.
  intros s a s'. unfold updPage. destruct (pages s !! p); [|done].
  by intros [= _ <-].
Qed.

Ltac frames_auto :=
  repeat first
    [ apply frames_bind; [|intros ?]
    | apply frames_when
    | apply frames_ret
    | apply frames_abort
    | apply frames_gets
    | apply frames_getPage
    | apply frames_updPage
    | apply frames_modify; intros ?; done
    | match goal with |- frames _ (if ?b then _ else _) => destruct b end ].

Lemma frames_Page_Available R p : frames R (Page_Available p).
Proof. unfold Page_Available. frames_auto. Qed.

Lemma frames_Page_Empty R p : frames R (Page_Empty p).
Proof. unfold Page_Empty. frames_auto. Qed.

Lemma frames_Page_Allocate R p : frames R (Page_Allocate p).
Proof. unfold Page_Allocate. frames_auto. Qed.

Lemma frames_Page_Deallocate p slot :
  frames (λ x, slot ≤ x < slot + 8) (Page_Deallocate p slot).
Proof.
  unfold Page_Deallocate. frames_auto.
  intros s u s' [= _ <-]. simpl. split; [done|]. split; [done|].
  intros x Hx. unfold storePtr.
  destruct (Z.leb_spec slot x), (Z.ltb_spec x (slot + 8)); simpl; try done; lia.
Qed.

Lemma frames_AddToList R p : frames R (AddToList p).
Proof. unfold AddToList. frames_auto. Qed.

Lemma frames_RemoveFromList R p : frames R (RemoveFromList p).
Proof. unfold RemoveFromList. frames_auto. Qed.

Lemma frames_DestroyPage R p : frames R (DestroyPage p).
Proof. unfold DestroyPage, PagePool_ReturnPage. frames_auto. Qed.

(** Deallocate writes the link of the slot it is given and nothing else,
    whatever the state. *)
Lemma frames_Deallocate ALLOC_PAGE_SIZE slot :
  frames (λ x, slot ≤ x < slot + 8) (PageAllocator_Deallocate ALLOC_PAGE_SIZE slot).
Proof.
  unfold PageAllocator_Deallocate.
  apply frames_bind; [apply frames_Page_Available|intros avail].
  apply frames_bind; [apply frames_when, frames_AddToList|intros _].
  apply frames_bind; [apply frames_Page_Deallocate|intros _].
  apply frames_bind; [apply frames_Page_Empty|intros empty].
  apply frames_when.
  apply frames_bind; [apply frames_RemoveFromList|intros _].
  apply frames_bind; [apply frames_DestroyPage|intros _].
  by apply frames_modify.
Qed.

(** Taking a slot writes the [slotSize] bytes of the slot it returns. *)
Lemma Allocate_take_frame s r s' :
  Allocate_take s = Ret r s' →
  ∀ x, ¬ (r ≤ x < r + slotSize s) → mem s' x = mem s x.
Proof.
  unfold Allocate_take, bind, gets.
  destruct (Page_Allocate (nonFull s) s) as [res s1|] eqn:E1; [|done].
  destruct (Page_Available (nonFull s) s1) as [av s2|] eqn:E2; [|done].
  destruct (when (negb av) (RemoveFromList (nonFull s)) s2) as [[] s3|] eqn:E3;
    [|done].
  destruct (frames_Page_Allocate (λ _, False) _ _ _ _ E1) as (A1 & A2 & A3).
  destruct (frames_Page_Available (λ _, False) _ _ _ _ E2) as (B1 & B2 & B3).
  destruct (frames_when (λ _, False) _ _ (frames_RemoveFromList _ _) _ _ _ E3)
    as (C1 & C2 & C3).
  assert (∀ x, mem s3 x = mem s x) as Hsame.
  { intros x. rewrite C3, B3, A3; tauto. }
  destruct (negb (res =? 0)).
  - unfold memset_s, bind, modify, ret, abort.
    destruct (_ || _); [done|]. intros [= <- <-] x Hx. simpl.
    rewrite <- Hsame. unfold memset.
    destruct (Z.leb_spec res x), (Z.ltb_spec x (res + slotSize s3)); simpl;
      try done.
    exfalso. apply Hx. split; [done|]. congruence.
  - unfold ret. intros [= <- <-] x _. apply Hsame.
Qed.

(** ** Which slot comes next *)

Lemma AddToList_head p s s' : AddToList p s = Ret tt s' → nonFull s' = p.
Proof.
  unfold AddToList, bind, gets.
  destruct (when _ _ s) as [[] s1|]; [|done].
  unfold updPage at 1. destruct (pages s1 !! p); [|done].
  unfold modify. by intros [= <-].
Qed.

Lemma Page_Deallocate_result p slot s s' :
  Page_Deallocate p slot s = Ret tt s' →
  nonFull s' = nonFull s ∧ ∃ P', pages s' !! p = Some P' ∧ header P' = slot.
Proof.
  destruct (pages s !! p) as [P|] eqn:HP.
  - rewrite (Page_Deallocate_spec s p P slot HP). intros [= <-]. simpl.
    split; [done|]. eexists. by rewrite lookup_insert_eq.
  - unfold Page_Deallocate, bind, getPage. by rewrite HP.
Qed.

(** Taking a slot returns the head of the free list of the first page on
    the nonFull list. *)
Lemma Allocate_take_result s r s' :
  Allocate_take s = Ret r s' →
  ∃ H, pages s !! nonFull s = Some H ∧ r = header H.
Proof.
  unfold Allocate_take, bind, gets.
  destruct (Page_Allocate (nonFull s) s) as [res s1|] eqn:E1; [|done].
  assert (∃ H, pages s !! nonFull s = Some H ∧ res = header H) as (H & HH & ->).
  { revert E1. unfold Page_Allocate, bind, getPage.
    destruct (pages s !! nonFull s) as [H|]; [|done]. exists H. split; [done|].
    destruct (Z.eqb_spec (header H) 0) as [E0|]; simpl in E1.
    - unfold ret in E1. congruence.
    - unfold gets, updPage in E1. simpl in E1.
      repeat (match type of E1 with
              | context [match ?o with Some _ => _ | None => _ end] => destruct o
              end; try done).
      unfold ret in E1. congruence. }
  destruct (Page_Available _ s1) as [av s2|]; [|done].
  destruct (when _ _ s2) as [[] s3|]; [|done].
  intros E. exists H. split; [done|].
  match type of E with
  | match ?o with Ret _ _ => _ | Abort _ => _ end = _ =>
      destruct o as [[] s4|]; [|done]
  end.
  unfold ret in E. by injection E.
Qed.

Section Operations.

Context (ALLOC_PAGE_SIZE sizeof_Page size : Z).
Context (Hcfg : Configured ALLOC_PAGE_SIZE sizeof_Page size).

Local Abbreviation PAGE := ALLOC_PAGE_SIZE.
Local Abbreviation off := (InitPage_offset sizeof_Page).
Local Abbreviation str := (stride size).
Local Abbreviation T := (slotsPerPage ALLOC_PAGE_SIZE sizeof_Page size).
Local Abbreviation is_slot := (is_slot ALLOC_PAGE_SIZE sizeof_Page size).
Local Abbreviation page_ok := (page_ok ALLOC_PAGE_SIZE sizeof_Page size).
Local Abbreviation list_ok := (list_ok ALLOC_PAGE_SIZE sizeof_Page size).
Local Abbreviation InvBut := (InvBut ALLOC_PAGE_SIZE sizeof_Page size).
Local Abbreviation Inv := (Inv ALLOC_PAGE_SIZE sizeof_Page size).

Lemma cfg_tight : PAGE < off + (T + 1) * str ∧ T ≤ PAGE.
Proof.
  pose proof (cfg_stride _ _ _ Hcfg) as (_ & Hs & _).
  pose proof (cfg_offset sizeof_Page) as [Ho _].
  pose proof (cfg_fit _ _ _ Hcfg) as (Hf & _).
  destruct Hcfg as (_ & _ & _ & Ht).
  unfold slotsPerPage in *.
  pose proof (Z.mul_succ_div_gt (PAGE - off) str ltac:(lia)).
  split; nia.
Qed.

Lemma InitPage_loop_spec endp n :
  endp < 2 ^ 64 →
  ∀ fuel block s,
    slotAlignment s = str → (n < fuel)%nat → 0 ≤ block →
    block + (Z.of_nat n + 1) * str - 1 ≤ endp < block + (Z.of_nat n + 2) * str - 1 →
    ∃ m', InitPage_loop fuel endp block block s =
            Ret tt (rebuild s (pages s) m' (nonFull s)) ∧
          chain m' block (slots_from size block (S n)) ∧
          ∀ a, a < block ∨ block + Z.of_nat n * str ≤ a → m' a = mem s a.
Proof.
  intros Hend. pose proof (cfg_stride _ _ _ Hcfg) as (_ & Hs & _).
  induction n as [|n IH]; intros fuel block s Hsa Hfuel Hblock Hfit;
    (destruct fuel as [|fuel]; [lia|]).
  - exists (mem s). destruct s as [pg m nf tp ss sa acq rt].
    simpl in Hsa |- *. subst sa. run_monad.
    destruct (Z.gtb_spec (block + str + str - 1) endp); [|lia].
    done.
  - destruct (IH fuel (block + str)
                (rebuild s (pages s) (storePtr (mem s) block (block + str)) (nonFull s)))
      as (m' & Hrun & Hchain & Hframe); [done|lia|lia|lia|].
    exists m'. split; [|split].
    + destruct s as [pg m nf tp ss sa acq rt]. unfold rebuild in Hrun.
      simpl in Hrun, Hsa |- *. subst sa. run_monad.
      destruct (Z.gtb_spec (block + str + str - 1) endp); [lia|].
      exact Hrun.
    + simpl. split; [done|].
      rewrite (loadPtr_keeps (storePtr (mem s) block (block + str))).
      * rewrite loadPtr_storePtr by lia. exact Hchain.
      * intros i Hi. apply Hframe. lia.
    + intros a Ha. rewrite Hframe by lia. simpl. unfold storePtr.
      destruct (Z.leb_spec block a), (Z.ltb_spec a (block + 8)); simpl; try done.
      nia.
Qed.

Lemma InitPage_spec s p J :
  pages s !! p = Some J → slotAlignment s = str →
  0 < p → p + PAGE ≤ 2 ^ 64 →
  ∃ m', InitPage ALLOC_PAGE_SIZE sizeof_Page p s =
          Ret tt (rebuild s (<[p := mkPage (p + off) 0 0 T T]> (pages s)) m'
                          (nonFull s)) ∧
        chain m' (p + off) (slots_from size (p + off) (Z.to_nat T)) ∧
        ∀ a, a < p ∨ p + PAGE ≤ a → m' a = mem s a.
Proof.
  intros HJ Hsa Hp Hend.
  pose proof (cfg_stride _ _ _ Hcfg) as (_ & Hs & _).
  pose proof (cfg_offset sizeof_Page) as [Ho _].
  pose proof (cfg_fit _ _ _ Hcfg) as (Hf & Hpos & _).
  pose proof cfg_tight as [Ht1 Ht2].
  pose proof Hcfg as (_ & _ & _ & Ht).
  destruct (InitPage_loop_spec (p + PAGE - 1) (Z.to_nat (T - 1)) ltac:(lia)
              (S (Z.to_nat PAGE)) (p + off)
              (rebuild s (<[p := mkPage (p + off) 0 0 T T]> (pages s)) (mem s)
                       (nonFull s)))
    as (m' & Hrun & Hchain & Hframe); [done|lia|lia|rewrite Z2Nat.id by lia; lia|].
  exists m'. split; [|split].
  - destruct s as [pg m nf tp ss sa acq rt]. unfold rebuild in Hrun.
    simpl in Hrun, Hsa, HJ |- *. subst sa. unfold InitPage. run_monad.
    rewrite HJ. simpl. rewrite lookup_insert_eq. simpl.
    destruct (Z.eqb_spec str 0); [lia|]. simpl.
    rewrite lookup_insert_eq. simpl. rewrite lookup_insert_eq. simpl.
    rewrite lookup_insert_eq. simpl.
    rewrite (cfg_count _ _ _ Hcfg).
    destruct (Z.leb_spec 1 T); [|lia]. simpl.
    rewrite lookup_insert_eq. simpl.
    rewrite !insert_insert_eq. exact Hrun.
  - replace (Z.to_nat T) with (S (Z.to_nat (T - 1))) by lia. exact Hchain.
  - intros a Ha. apply Hframe. rewrite Z2Nat.id by lia. simpl. nia.
Qed.

Lemma pages_apart p q :
  p mod PAGE = 0 → q mod PAGE = 0 → p ≠ q → p + PAGE ≤ q ∨ q + PAGE ≤ p.
Proof.
  intros Hp Hq Hne. pose proof (cfg_fit _ _ _ Hcfg) as (_ & Hpos & _).
  apply Z_div_exact_full_2 in Hp; [|lia]. apply Z_div_exact_full_2 in Hq; [|lia].
  assert (p / PAGE ≠ q / PAGE) by (intros E; apply Hne; rewrite Hp, Hq, E; done).
  nia.
Qed.

Lemma slot_keeps_storePtr m p q x a v :
  p mod PAGE = 0 → q mod PAGE = 0 → is_slot p x → is_slot q a → x ≠ a →
  keeps m (storePtr m a v) x.
Proof.
  intros Hp Hq Hx Ha Hne. apply keeps_storePtr.
  pose proof (cfg_stride _ _ _ Hcfg) as (_ & Hs & _).
  destruct (slot_sep _ _ _ Hcfg p q x a); try done; lia.
Qed.

Lemma slot_keeps_memset m p q x a :
  p mod PAGE = 0 → q mod PAGE = 0 → is_slot p x → is_slot q a → x ≠ a →
  keeps m (memset m a 0 size) x.
Proof.
  intros Hp Hq Hx Ha Hne. apply keeps_memset.
  pose proof (cfg_stride _ _ _ Hcfg) as (_ & Hs & Hsz & _).
  destruct (slot_sep _ _ _ Hcfg p q x a); try done; lia.
Qed.

(** A page stays in order when its free slots keep their contents and the
    held slots of the page stay the same. *)
Lemma page_ok_transfer m m' held held' q Q Q' :
  header Q' = header Q → total Q' = total Q → free Q' = free Q →
  (∀ x, is_slot q x → x ∉ held → keeps m m' x) →
  (∀ x, is_slot q x → x ∈ held ↔ x ∈ held') →
  page_ok m held q Q → page_ok m' held' q Q'.
Proof.
  intros Eh Et Ef Hkeep Hheld (H1 & H2 & H3 & H4 & H5 & l & Hc & Hl & Hnd & Hin & Hall).
  unfold page_ok. rewrite Eh, Et, Ef.
  do 5 (split; [done|]). exists l. split; [|split; [done|split; [done|split]]].
  - eapply chain_keeps; [|done]. intros x Hx.
    destruct (Hin x Hx). by apply Hkeep.
  - intros x Hx. destruct (Hin x Hx) as [Hs Hn]. split; [done|].
    by rewrite <- Hheld.
  - intros x Hx. destruct (Hall x Hx); [by left|right]. by apply Hheld.
Qed.

Lemma page_ok_free m held p P : page_ok m held p P → 0 ≤ free P.
Proof. intros (_ & _ & _ & _ & _ & l & _ & <- & _). lia. Qed.

(** A page all of whose slots are free has none that is held. *)
Lemma page_ok_idle m held p P x :
  page_ok m held p P → free P = T → is_slot p x → x ∉ held.
Proof.
  intros (_ & _ & _ & _ & _ & l & _ & Hl & Hnd & Hin & _) Hf Hx.
  assert (x ∈ l) as Hxl.
  { eapply (slots_all _ _ _ Hcfg p l); try done.
    - intros s Hs. by destruct (Hin s Hs).
    - lia. }
  by destruct (Hin x Hxl).
Qed.

(** *** Deallocate *)

Lemma Deallocate_halves slot s :
  PageAllocator_Deallocate PAGE slot s =
  (Deallocate_put (AlignDown slot PAGE) slot ;;;
   Deallocate_sweep (AlignDown slot PAGE)) s.
Proof.
  unfold PageAllocator_Deallocate, Deallocate_put, Deallocate_sweep, bind.
  destruct (Page_Available _ s) as [av s1|]; [|done].
  destruct (when _ _ s1) as [[] s2|]; [|done].
  by destruct (Page_Deallocate _ _ s2).
Qed.

Lemma Deallocate_put_spec c slot :
  Inv c → slot ∈ live c →
  ∃ p P s1 P1,
    p = AlignDown slot PAGE ∧ is_slot p slot ∧
    pages (alloc c) !! p = Some P ∧
    Deallocate_put p slot (alloc c) = Ret tt s1 ∧
    InvBut p (mkClient s1 (remove_one slot (live c))) ∧
    pages s1 !! p = Some P1 ∧ free P1 = free P + 1 ∧
    returned s1 = returned (alloc c) ∧ acquired s1 = acquired (alloc c).
Proof.
  intros [Hsize Hstr Hpages Hbusy Hlist Hcount [Hnd Hlive] Hpool] Hslot.
  destruct c as [s held]. simpl in *.
  destruct (Hlive slot Hslot) as (p & [P HP] & Hps).
  pose proof (Hpages p P HP) as Hok.
  pose proof Hok as (Hp0 & Hpal & Hpend & Htot & Hfree & l & Hchain & Hlen & Hndl & Hin & Hall).
  pose proof (cfg_stride _ _ _ Hcfg) as (_ & Hs & Hsz & _).
  pose proof Hcfg as (_ & _ & _ & Ht).
  assert (free P < T) as Hlt by (apply (Hbusy p P HP); lia).
  assert (slot ∉ l) as Hsl by (intros H; by destruct (Hin slot H)).
  destruct Hlist as (lst & Hd & Hndlst & Hmem).
  (* the list after the page has been put on it, if it was not *)
  assert (∃ pg1 nf1 lst1,
    (∀ K : M unit,
       (avail <- Page_Available p ;; when (negb avail) (AddToList p) ;;; K) s =
       K (rebuild s pg1 (mem s) nf1)) ∧
    dseg pg1 0 nf1 lst1 0 ∧ NoDup lst1 ∧ p ∈ lst1 ∧
    (∀ x, core pg1 x = core (pages s) x) ∧
    (∀ x, x ≠ p → x ∈ lst1 ↔ x ∈ lst) ∧
    (∀ x, x ∉ lst1 → pg1 !! x = pages s !! x)) as
    (pg1 & nf1 & lst1 & Hrun1 & Hd1 & Hnd1 & Hp1 & Hcore1 & Hmem1 & Hout1).
  { unfold bind. rewrite (Page_Available_spec s p P HP).
    destruct (Z.eqb_spec (free P) 0) as [Hz|Hnz]; simpl.
    - destruct (Hmem p P HP) as [Hiff Hoff].
      assert (p ∉ lst) as Hnin by (rewrite Hiff; lia).
      destruct (Hoff Hnin) as [Hprev _].
      destruct (AddToList_spec s p P lst HP ltac:(lia) Hprev Hnin Hndlst Hd)
        as (pg1 & Hrun & Hd1 & Hcore & Hout).
      exists pg1, p, (p :: lst). split; [by intros K; rewrite Hrun|].
      split; [done|].
      split; [by constructor|]. split; [left|]. split; [done|]. split; [|done].
      intros x Hx. rewrite elem_of_cons. split; [by intros [?|?]|by right].
    - exists (pages s), (nonFull s), lst. split; [by destruct s|].
      split; [done|]. split; [done|]. split; [|done].
      destruct (Hmem p P HP) as [Hiff _]. apply Hiff.
      pose proof (page_ok_free _ _ _ _ Hok). lia. }
  destruct (core_inv pg1 p P (pages s)) as (P0 & HP0 & Eh & Et & Ef);
    [by rewrite Hcore1|done|].
  set (s1 := rebuild s pg1 (mem s) nf1).
  pose proof (Page_Deallocate_spec s1 p P0 slot HP0) as Hrun2.
  assert (slotsPerPage PAGE sizeof_Page size < 2 ^ 16) as Ht16 by lia.
  pose proof (page_ok_free _ _ _ _ Hok) as Hf0.
  rewrite Ef, Eh, Et in Hrun2. rewrite (Z.mod_small (free P + 1)) in Hrun2 by lia.
  exists p, P. eexists. eexists.
  split; [symmetry; by apply (slot_AlignDown _ _ _ Hcfg)|]. split; [done|].
  split; [done|]. split.
  { unfold Deallocate_put. rewrite Hrun1. exact Hrun2. }
  destruct (remove_one_NoDup slot held Hnd) as [Hnd' Hslot'].
  split; [|split; [|split; [|split]]]; simpl.
  2:{ apply lookup_insert_eq. }
  2:{ done. }
  2:{ done. }
  2:{ done. }
  constructor; simpl.
  - done.
  - done.
  - intros q Q. rewrite lookup_insert. case_decide as Hq.
    + (* the page the slot goes back to *)
      subst q. intros [= <-].
      unfold page_ok. simpl. do 3 (split; [done|]). split; [done|].
      split; [lia|]. exists (slot :: l). split; [|split; [|split; [|split]]].
      * simpl. split; [done|].
        destruct l as [|a l]; [done|].
        simpl in Hchain. destruct Hchain as [Ha Hchain].
        assert (is_slot p a) as Hsa by (apply Hin; left).
        pose proof (slot_bounds _ _ _ Hcfg _ _ Hsa).
        pose proof (cfg_offset sizeof_Page) as [? _].
        rewrite loadPtr_storePtr by lia.
        simpl. split; [done|].
        assert (a ≠ slot) as Hne by (intros ->; apply Hsl; left).
        rewrite (loadPtr_keeps (mem s)).
        2:{ by apply (slot_keeps_storePtr _ p p). }
        eapply chain_keeps; [|done]. intros x Hx.
        apply (slot_keeps_storePtr _ p p); try done.
        -- apply Hin. by right.
        -- intros ->. apply Hsl. by right.
      * simpl. lia.
      * by constructor.
      * intros x [->|Hx]%elem_of_cons; [done|].
        destruct (Hin x Hx) as [? Hnh]. split; [done|].
        intros Hr. by apply remove_one_subset in Hr.
      * intros x Hx. destruct (decide (x = slot)) as [->|Hne]; [left; left|].
        destruct (Hall x Hx); [left; by right|right].
        by apply remove_one_other.
    + intros HQ.
      destruct (core_inv (pages s) q Q pg1) as (Q0 & HQ0 & Eh' & Et' & Ef');
        [done|done|].
      pose proof (Hpages q Q0 HQ0) as HokQ.
      assert (∀ x, is_slot q x → x ≠ slot) as Hdiff.
      { intros x Hx ->. apply Hq.
        destruct HokQ as (_ & Hqal & _).
        by apply (slot_page_unique _ _ _ Hcfg p q slot). }
      eapply page_ok_transfer; [..|exact HokQ]; try done.
      * intros x Hx _.
        destruct HokQ as (_ & Hqal & _).
        apply (slot_keeps_storePtr _ q p); try done. by apply Hdiff.
      * intros x Hx. split; [|apply remove_one_subset].
        intros Hr. apply remove_one_other; [done|by apply Hdiff].
  - intros q Q. rewrite lookup_insert. case_decide as Hq; [done|].
    intros HQ _.
    destruct (core_inv (pages s) q Q pg1) as (Q0 & HQ0 & Eh' & Et' & Ef');
      [done|done|].
    rewrite <- Ef'. apply (Hbusy q Q0 HQ0).
    destruct (Hpages q Q0 HQ0). lia.
  - exists lst1. split; [|split; [done|]].
    + eapply dseg_ext; [|exact Hd1]. intros x _. unfold links.
      rewrite lookup_insert. case_decide; [subst; by rewrite HP0|done].
    + intros q Q. rewrite lookup_insert. case_decide as Hq.
      * subst q. intros [= <-]. simpl. split; [split; [lia|done]|done].
      * intros HQ.
        destruct (core_inv (pages s) q Q pg1) as (Q0 & HQ0 & Eh' & Et' & Ef');
          [done|done|].
        destruct (Hmem q Q0 HQ0) as [Hiff Hoff].
        rewrite (Hmem1 q) by done. rewrite <- Ef'. split; [done|].
        intros Hn. assert (q ∉ lst1) as Hn1 by (by rewrite (Hmem1 q)).
        rewrite (Hout1 q Hn1) in HQ. rewrite HQ0 in HQ. injection HQ as <-.
        by apply Hoff.
  - rewrite map_size_insert_Some by (by exists P0).
    by rewrite (core_size _ _ Hcore1).
  - split; [done|]. intros r Hr. apply remove_one_subset in Hr.
    destruct (Hlive r Hr) as (q & Hq & Hqr). exists q. split; [|done].
    rewrite <- elem_of_dom, dom_insert_lookup_L by (by exists P0).
    rewrite (core_dom _ _ Hcore1). by apply elem_of_dom.
  - rewrite dom_insert_lookup_L by (by exists P0).
    by rewrite (core_dom _ _ Hcore1).
Qed.

Lemma Deallocate_sweep_spec p s1 held P1 :
  InvBut p (mkClient s1 held) → pages s1 !! p = Some P1 → 0 < free P1 →
  ∃ s2, Deallocate_sweep p s1 = Ret tt s2 ∧
        Inv (mkClient s2 held) ∧ acquired s2 = acquired s1 ∧
        (free P1 = total P1 →
         pages s2 !! p = None ∧ returned s2 = p :: returned s1 ∧
         totalPages s2 = (totalPages s1 - 1) mod 2 ^ 32) ∧
        (free P1 ≠ total P1 → s2 = s1).
Proof.
  intros [Hsize Hstr Hpages Hbusy Hlist Hcount [Hnd Hlive] Hpool] HP1 Hpos.
  simpl in *.
  pose proof (Hpages p P1 HP1) as Hok.
  pose proof Hok as (Hp0 & Hpal & Hpend & Htot & Hfree & _).
  unfold Deallocate_sweep, bind. rewrite (Page_Empty_spec s1 p P1 HP1).
  destruct (Z.eqb_spec (free P1) (total P1)) as [Heq|Hne]; simpl.
  - (* the page has become idle *)
    destruct Hlist as (lst & Hd & Hndlst & Hmem).
    assert (p ∈ lst) as Hin by (by apply (Hmem p P1 HP1)).
    destruct (RemoveFromList_spec s1 p lst Hd Hndlst Hin)
      as (pg' & nf' & l1 & l2 & Hrun & -> & Hd' & Hlk & Hcore & Hout).
    destruct (NoDup_unsplit _ _ _ Hndlst) as [Hnd' Hmem'].
    rewrite Hrun.
    destruct (core_inv pg' p P1 (pages s1)) as (P' & HP' & Eh & Et & Ef);
      [by rewrite Hcore|done|].
    unfold DestroyPage. run_monad. rewrite HP'. simpl.
    rewrite Ef, Et. destruct (Z.eqb_spec (free P1) (total P1)); [|done]. simpl.
    eexists. split; [done|]. simpl.
    split; [|split; [done|split; [|done]]].
    2:{ intros _. split; [apply lookup_delete_eq|done]. }
    constructor; simpl.
    + done.
    + done.
    + intros q Q. rewrite lookup_delete. case_decide as Hq; [done|].
      intros HQ.
      destruct (core_inv (pages s1) q Q pg') as (Q0 & HQ0 & Eh' & Et' & Ef');
        [done|done|].
      eapply page_ok_transfer; [..|exact (Hpages q Q0 HQ0)]; try done.
    + intros q Q. rewrite lookup_delete. case_decide as Hq; [done|].
      intros HQ _.
      destruct (core_inv (pages s1) q Q pg') as (Q0 & HQ0 & Eh' & Et' & Ef');
        [done|done|].
      rewrite <- Ef'. apply (Hbusy q Q0 HQ0). done.
    + exists (l1 ++ l2). split; [|split; [done|]].
      * eapply dseg_ext; [|exact Hd']. intros x Hx. unfold links.
        rewrite lookup_delete_ne; [done|].
        intros ->. by apply Hmem' in Hx as [_ ?].
      * intros q Q. rewrite lookup_delete. case_decide as Hq; [done|].
        intros HQ.
        destruct (core_inv (pages s1) q Q pg') as (Q0 & HQ0 & Eh' & Et' & Ef');
          [done|done|].
        destruct (Hmem q Q0 HQ0) as [Hiff Hoff].
        rewrite Hmem', <- Ef'. split.
        -- rewrite <- Hiff. split; [by intros [? _]|]. intros ?. split; [done|].
           by intros ->.
        -- intros Hn. assert (q ∉ l1 ++ p :: l2) as Hn1.
           { intros ?. apply Hn. split; [done|]. by intros ->. }
           rewrite (Hout q Hn1) in HQ. rewrite HQ0 in HQ. injection HQ as <-.
           by apply Hoff.
    + rewrite map_size_delete_Some by (by exists P').
      rewrite (core_size _ _ Hcore), Hcount.
      assert (base.size (pages s1) ≠ 0)%nat as Hsz.
      { intros E. apply map_size_empty_iff in E. by rewrite E in HP1. }
      rewrite Zminus_mod_idemp_l. f_equal. lia.
    + split; [done|]. intros r Hr.
      destruct (Hlive r Hr) as (q & [Q HQ] & Hqr). exists q. split; [|done].
      assert (q ≠ p) as Hq.
      { intros ->. rewrite HP1 in HQ. injection HQ as <-.
        rewrite Htot in Heq. by apply (page_ok_idle _ _ _ _ r Hok Heq). }
      rewrite <- elem_of_dom, dom_delete_L, elem_of_difference, elem_of_singleton.
      split; [|done]. rewrite (core_dom _ _ Hcore). apply elem_of_dom. by exists Q.
    + rewrite dom_delete_L, (core_dom _ _ Hcore), Hpool.
      rewrite (union_difference_singleton_L p (dom (pages s1))) at 1
        by (apply elem_of_dom; by exists P1).
      rewrite elements_union_singleton
        by (rewrite elem_of_difference, elem_of_singleton; by intros [_ ?]).
      by rewrite Permutation_middle.
  - exists s1. split; [done|]. split; [|done].
    constructor; simpl; try done.
    + intros q Q HQ _. destruct (decide (q = p)) as [->|Hq].
      * rewrite HP1 in HQ. injection HQ as <-. lia.
      * by apply (Hbusy q Q HQ).
Qed.

(** *** Allocate *)

Lemma Allocate_halves fresh junk s :
  PageAllocator_Allocate PAGE sizeof_Page fresh junk s =
  (when (nonFull s =? 0) (Allocate_grow PAGE sizeof_Page fresh junk) ;;;
   Allocate_take) s.
Proof.
  unfold PageAllocator_Allocate, Allocate_grow, Allocate_take, bind, gets.
  destruct (nonFull s =? 0); simpl; [|done].
  destruct (CreatePage fresh junk s) as [cur s1|]; [|done].
  destruct (InitPage _ _ cur s1) as [[] s2|]; [|done].
  done.
Qed.

Lemma Allocate_grow_spec c fresh junk :
  Inv c → nonFull (alloc c) = 0 →
  0 < fresh → fresh mod PAGE = 0 → fresh + PAGE ≤ 2 ^ 64 →
  pages (alloc c) !! fresh = None →
  ∃ s1, Allocate_grow PAGE sizeof_Page fresh junk (alloc c) = Ret tt s1 ∧
        InvBut fresh (mkClient s1 (live c)) ∧
        nonFull s1 = fresh ∧
        acquired s1 = fresh :: acquired (alloc c) ∧
        returned s1 = returned (alloc c).
Proof.
  intros [Hsize Hstr Hpages Hbusy Hlist Hcount [Hnd Hlive] Hpool] Hnf
         Hf0 Hfal Hfend Hfnew.
  destruct c as [s held]. destruct s as [pg m nf tp ss sa acq rt].
  simpl in *.
  pose proof Hcfg as (_ & _ & _ & Ht).
  destruct (InitPage_spec
              (mkState (<[fresh := junk]> pg) m nf tp ss sa (fresh :: acq) rt)
              fresh junk) as (m' & Hrun & Hchain & Hframe);
    [apply lookup_insert_eq|done|done|done|].
  unfold rebuild in Hrun. simpl in Hrun, Hframe.
  rewrite insert_insert_eq in Hrun.
  eexists. split.
  { unfold Allocate_grow, CreatePage, PagePool_GetPage.
    destruct (Z.eqb_spec fresh 0); [lia|].
    unfold bind at 1. unfold bind at 2. unfold bind at 2. unfold modify at 1 2.
    unfold ret at 1. simpl. unfold set_pages, log_acquired; simpl.
    unfold bind at 1. rewrite Hrun. run_monad. done. }
  simpl. split; [|done].
  destruct Hlist as (lst & Hd & Hndlst & Hmem).
  assert (lst = []) as -> by (by apply (dseg_head _ _ _ _ Hd)).
  constructor; simpl.
  - done.
  - done.
  - intros q Q. rewrite lookup_insert. case_decide as Hq.
    + subst q. intros [= <-].
      unfold page_ok. simpl. do 3 (split; [done|]). split; [done|].
      split; [lia|].
      exists (slots_from size (fresh + off) (Z.to_nat T)).
      split; [done|]. split; [rewrite slots_from_length; lia|].
      split; [by apply (slots_from_NoDup _ _ _ Hcfg)|]. split.
      * intros x Hx. apply (is_slot_slots_from _ _ _ Hcfg) in Hx.
        split; [done|]. intros Hh.
        destruct (Hlive x Hh) as (q & [Q HQ] & Hqx).
        destruct (Hpages q Q HQ) as (_ & Hqal & _).
        assert (fresh = q) as ->
          by (by apply (slot_page_unique _ _ _ Hcfg _ _ x)).
        by rewrite Hfnew in HQ.
      * intros x Hx. left. by apply (is_slot_slots_from _ _ _ Hcfg).
    + intros HQ. pose proof (Hpages q Q HQ) as HokQ.
      eapply page_ok_transfer; [..|exact HokQ]; try done.
      intros x Hx _ i Hi. apply Hframe.
      destruct HokQ as (_ & Hqal & _).
      pose proof (slot_bounds _ _ _ Hcfg _ _ Hx).
      pose proof (cfg_offset sizeof_Page) as [? _].
      pose proof (cfg_stride _ _ _ Hcfg) as (_ & ? & _).
      destruct (pages_apart fresh q); try done; lia.
  - intros q Q. rewrite lookup_insert. case_decide as Hq; [done|].
    intros HQ _. apply (Hbusy q Q HQ). destruct (Hpages q Q HQ). lia.
  - exists [fresh]. split; [|split].
    + simpl. split; [done|]. split; [lia|]. eexists.
      rewrite lookup_insert_eq. done.
    + apply NoDup_singleton.
    + intros q Q. rewrite lookup_insert. case_decide as Hq.
      * subst q. intros [= <-]. simpl.
        split; [split; [lia|intros; apply list_elem_of_singleton; done]|].
        intros Hn. exfalso. apply Hn. by apply list_elem_of_singleton.
      * intros HQ. destruct (Hmem q Q HQ) as [Hiff Hoff].
        rewrite list_elem_of_singleton. split.
        -- split; [done|]. intros Hpos. apply Hiff in Hpos. inversion Hpos.
        -- intros _. apply Hoff. intros Hin. inversion Hin.
  - rewrite map_size_insert_None by done. rewrite Hcount.
    rewrite Zplus_mod_idemp_l. f_equal. lia.
  - split; [done|]. intros r Hr. destruct (Hlive r Hr) as (q & [Q HQ] & Hqr).
    exists q. split; [|done]. rewrite lookup_insert_ne; [by exists Q|].
    intros ->. by rewrite Hfnew in HQ.
  - rewrite dom_insert_L, Hpool.
    rewrite elements_union_singleton by (by apply not_elem_of_dom).
    by rewrite Permutation_middle.
Qed.

Lemma Allocate_take_spec h s1 held :
  InvBut h (mkClient s1 held) → nonFull s1 = h → h ≠ 0 →
  ∃ r s2,
    Allocate_take s1 = Ret r s2 ∧
    Inv (mkClient s2 (r :: held)) ∧
    is_slot h r ∧ h mod PAGE = 0 ∧ is_Some (pages s1 !! h) ∧
    (∀ i, 0 ≤ i < size → mem s2 (r + i) = 0) ∧
    dom (pages s2) = dom (pages s1) ∧
    acquired s2 = acquired s1 ∧ returned s2 = returned s1 ∧
    totalPages s2 = totalPages s1.
Proof.
  intros [Hsize Hstr Hpages Hbusy Hlist Hcount [Hnd Hlive] Hpool] Hnf Hh.
  destruct s1 as [pg m nf tp ss sa acq rt]. simpl in *. subst nf ss sa.
  pose proof (cfg_stride _ _ _ Hcfg) as (_ & Hs & Hsz & Hsz1).
  pose proof Hcfg as (_ & _ & _ & Ht).
  destruct Hlist as (lst & Hd & Hndlst & Hmem).
  assert (∃ H, pg !! h = Some H ∧ h ∈ lst) as (H & HH & Hhl).
  { destruct lst as [|x lst]; simpl in Hd; [done|].
    destruct Hd as (-> & _ & H & HH & _). exists H. split; [done|left]. }
  pose proof (Hpages h H HH) as Hok.
  pose proof Hok as (Hp0 & Hpal & Hpend & Htot & Hfree & l & Hchain & Hlen & Hndl & Hin & Hall).
  assert (0 < free H) as Hpos by (by apply (Hmem h H HH)).
  destruct l as [|a l]; [simpl in Hlen; lia|].
  simpl in Hchain, Hlen. destruct Hchain as [Ha Hchain].
  assert (is_slot h a ∧ a ∉ held) as [Hsa Hah] by (apply Hin; left).
  apply NoDup_cons in Hndl as [Hal Hndl].
  pose proof (slot_pos _ _ _ Hcfg h a Hp0 Hsa) as [_ Ha0].
  set (H2 := mkPage (loadPtr m a) (prev H) (next H) (total H) (free H - 1)).
  set (s2 := mkState (<[h := H2]> pg) m h tp size str acq rt).
  assert (Page_Allocate h (mkState pg m h tp size str acq rt) = Ret a s2) as Hrun1.
  { rewrite (Page_Allocate_spec (mkState pg m h tp size str acq rt) h H HH)
      by congruence.
    simpl. rewrite Ha. unfold rebuild; simpl.
    rewrite (Z.mod_small (free H - 1)) by lia. done. }
  assert (dseg (pages s2) 0 h lst 0) as Hd2.
  { eapply dseg_ext; [|exact Hd]. intros x _. unfold links. simpl.
    rewrite lookup_insert. case_decide; [subst; by rewrite HH|done]. }
  assert (∃ pg3 nf3 lst3,
    (∀ A (K : M A),
       (avail <- Page_Available h ;; when (negb avail) (RemoveFromList h) ;;; K) s2 =
       K (rebuild s2 pg3 m nf3)) ∧
    dseg pg3 0 nf3 lst3 0 ∧ NoDup lst3 ∧
    (∀ x, core pg3 x = core (pages s2) x) ∧
    (∀ x, x ≠ h → x ∈ lst3 ↔ x ∈ lst) ∧
    (h ∈ lst3 ↔ 0 < free H - 1) ∧
    (h ∉ lst3 → links pg3 h = Some (0, 0)) ∧
    (∀ x, x ∉ lst → pg3 !! x = pages s2 !! x)) as
    (pg3 & nf3 & lst3 & Hrun3 & Hd3 & Hnd3 & Hcore3 & Hmem3 & Hh3 & Hlk3 & Hout3).
  { unfold bind.
    rewrite (Page_Available_spec s2 h H2) by apply lookup_insert_eq.
    simpl. destruct (Z.eqb_spec (free H - 1) 0) as [Hz|Hnz]; simpl.
    - destruct (RemoveFromList_spec s2 h lst Hd2 Hndlst Hhl)
        as (pg' & nf' & l1 & l2 & Hrun & -> & Hd' & Hlk & Hcore & Hout).
      destruct (NoDup_unsplit _ _ _ Hndlst) as [Hnd' Hmem'].
      exists pg', nf', (l1 ++ l2). split; [by intros A K; rewrite Hrun|].
      split; [done|]. split; [done|]. split; [done|]. split; [|split; [|done]].
      + intros x Hx. rewrite Hmem'. split; [by intros [? _]|done].
      + rewrite Hmem'. split; [by intros [_ ?]|lia].
    - exists (pages s2), h, lst. split; [done|]. split; [done|]. split; [done|].
      split; [done|]. split; [done|]. split; [|done].
      split; [lia|done]. }
  exists a. eexists. split.
  { unfold Allocate_take. unfold bind at 1. unfold gets at 1. simpl.
    unfold bind at 1. rewrite Hrun1. cbv beta iota. rewrite Hrun3.
    destruct (Z.eqb_spec a 0) as [|_]; [exfalso; done|]. simpl.
    unfold memset_s. run_monad.
    destruct (Z.eqb_spec size 0); [exfalso; lia|].
    destruct (Z.eqb_spec a 0); [exfalso; done|].
    destruct (Z.ltb_spec size size); [exfalso; lia|]. simpl. done. }
  simpl. split; [|split; [done|split; [done|split; [by exists H|split]]]].
  2:{ intros i Hi. unfold memset.
      destruct (Z.leb_spec a (a + i)), (Z.ltb_spec (a + i) (a + size)); simpl;
        try done; lia. }
  2:{ split; [|done]. rewrite (core_dom _ _ Hcore3). simpl.
      apply dom_insert_lookup_L. by exists H. }
  assert (∀ q Q, pg3 !! q = Some Q →
            if decide (q = h)
            then header Q = loadPtr m a ∧ total Q = total H ∧ free Q = free H - 1
            else ∃ Q0, pg !! q = Some Q0 ∧ header Q0 = header Q ∧
                       total Q0 = total Q ∧ free Q0 = free Q) as Hview.
  { intros q Q HQ.
    destruct (core_inv (pages s2) q Q pg3) as (Q0 & HQ0 & Eh' & Et' & Ef');
      [done|done|]. simpl in HQ0. rewrite lookup_insert in HQ0.
    case_decide as Hq.
    - subst q. rewrite decide_True by done. injection HQ0 as <-. done.
    - rewrite decide_False by done. by exists Q0. }
  constructor; simpl.
  - done.
  - done.
  - intros q Q HQ. specialize (Hview q Q HQ). case_decide as Hq.
    + subst q. destruct Hview as (Eh & Et & Ef).
      unfold page_ok. rewrite Eh, Et, Ef. do 3 (split; [done|]).
      split; [done|]. split; [lia|]. exists l.
      split; [|split; [lia|split; [done|split]]].
      * eapply chain_keeps; [|exact Hchain]. intros x Hx.
        apply (slot_keeps_memset _ h h); try done.
        -- apply Hin. by right.
        -- by intros ->.
      * intros x Hx. destruct (Hin x) as [? Hnh]; [by right|]. split; [done|].
        intros [->|?]%elem_of_cons; done.
      * intros x Hx. destruct (Hall x Hx) as [[->|?]%elem_of_cons|?].
        -- right. left.
        -- by left.
        -- right. by right.
    + destruct Hview as (Q0 & HQ0 & Eh & Et & Ef).
      pose proof (Hpages q Q0 HQ0) as HokQ.
      assert (∀ x, is_slot q x → x ≠ a) as Hdiff.
      { intros x Hx ->. apply Hq.
        destruct HokQ as (_ & Hqal & _).
        by apply (slot_page_unique _ _ _ Hcfg q h a). }
      eapply page_ok_transfer; [..|exact HokQ]; try done.
      * intros x Hx _. destruct HokQ as (_ & Hqal & _).
        apply (slot_keeps_memset _ q h); try done. by apply Hdiff.
      * intros x Hx. rewrite elem_of_cons. split; [by right|].
        intros [->|?]; [|done]. by destruct (Hdiff a Hx).
  - intros q Q HQ _. specialize (Hview q Q HQ). case_decide as Hq.
    + destruct Hview as (_ & _ & ->). lia.
    + destruct Hview as (Q0 & HQ0 & _ & _ & <-).
      by apply (Hbusy q Q0 HQ0).
  - exists lst3. split; [done|]. split; [done|].
    intros q Q HQ. specialize (Hview q Q HQ). case_decide as Hq.
    + subst q. destruct Hview as (_ & _ & ->). split; [done|].
      intros Hn. destruct (links_inv _ _ _ _ (Hlk3 Hn)) as (Q' & HQ' & ? & ?).
      rewrite HQ in HQ'. by injection HQ' as <-.
    + destruct Hview as (Q0 & HQ0 & _ & _ & <-).
      destruct (Hmem q Q0 HQ0) as [Hiff Hoff].
      rewrite (Hmem3 q Hq). split; [done|].
      intros Hn. rewrite (Hout3 q Hn) in HQ. simpl in HQ.
      rewrite lookup_insert_ne in HQ by done.
      rewrite HQ0 in HQ. injection HQ as <-. by apply Hoff.
  - rewrite (core_size _ _ Hcore3). simpl.
    by rewrite map_size_insert_Some by (by exists H).
  - split; [by constructor|].
    assert (dom pg3 = dom pg) as Hdom.
    { rewrite (core_dom _ _ Hcore3). simpl.
      apply dom_insert_lookup_L. by exists H. }
    intros r [->|Hr]%elem_of_cons.
    + exists h. split; [|done]. apply elem_of_dom. rewrite Hdom.
      apply elem_of_dom. by exists H.
    + destruct (Hlive r Hr) as (q & Hq & Hqr). exists q. split; [|done].
      apply elem_of_dom. rewrite Hdom. by apply elem_of_dom.
  - rewrite (core_dom _ _ Hcore3). simpl.
    rewrite dom_insert_lookup_L by (by exists H). done.
Qed.

(** *** Whole operations *)

(** When the head of the list is exempted instead of no page. *)
Lemma Inv_InvBut c h : Inv c → InvBut h c.
Proof.
  intros [Hsize Hstr Hpages Hbusy Hlist Hcount Hlive Hpool].
  constructor; try done.
  intros p P HP _. apply (Hbusy p P HP). destruct (Hpages p P HP). lia.
Qed.

Lemma Allocate_spec c fresh junk :
  Inv c →
  (nonFull (alloc c) = 0 →
   0 < fresh ∧ fresh mod PAGE = 0 ∧ fresh + PAGE ≤ 2 ^ 64 ∧
   pages (alloc c) !! fresh = None) →
  ∃ r s' p,
    PageAllocator_Allocate PAGE sizeof_Page fresh junk (alloc c) = Ret r s' ∧
    Inv (mkClient s' (r :: live c)) ∧
    is_slot p r ∧ p mod PAGE = 0 ∧ is_Some (pages s' !! p) ∧
    (∀ i, 0 ≤ i < size → mem s' (r + i) = 0) ∧
    returned s' = returned (alloc c) ∧
    acquired s' = (if nonFull (alloc c) =? 0 then [fresh] else [])
                  ++ acquired (alloc c).
Proof.
  intros HI Hpool. rewrite Allocate_halves. unfold bind at 1.
  destruct (Z.eqb_spec (nonFull (alloc c)) 0) as [Hz|Hnz]; simpl.
  - destruct (Hpool Hz) as (Hf0 & Hfal & Hfend & Hfnew).
    destruct (Allocate_grow_spec c fresh junk HI Hz Hf0 Hfal Hfend Hfnew)
      as (s1 & -> & HI1 & Hnf1 & Hacq1 & Hret1).
    destruct (Allocate_take_spec fresh s1 (live c) HI1 Hnf1 ltac:(lia))
      as (r & s2 & -> & HI2 & Hsl & Hal & Hres & Hzero & Hdom & Hacq2 & Hret2 & _).
    exists r, s2, fresh. split; [done|]. split; [done|]. split; [done|].
    split; [done|]. split; [|split; [done|split; congruence]].
    apply elem_of_dom. rewrite Hdom. by apply elem_of_dom.
  - destruct (Allocate_take_spec (nonFull (alloc c)) (alloc c) (live c))
      as (r & s2 & -> & HI2 & Hsl & Hal & Hres & Hzero & Hdom & Hacq2 & Hret2 & _);
      [|done|done|].
    { destruct c. by apply Inv_InvBut. }
    exists r, s2, (nonFull (alloc c)). split; [done|]. split; [done|].
    split; [done|]. split; [done|]. split; [|done].
    apply elem_of_dom. rewrite Hdom. by apply elem_of_dom.
Qed.

Lemma Deallocate_spec c slot :
  Inv c → slot ∈ live c →
  ∃ p P s',
    p = AlignDown slot PAGE ∧ pages (alloc c) !! p = Some P ∧
    PageAllocator_Deallocate PAGE slot (alloc c) = Ret tt s' ∧
    Inv (mkClient s' (remove_one slot (live c))) ∧
    acquired s' = acquired (alloc c) ∧
    (free P + 1 = total P →
     pages s' !! p = None ∧ returned s' = p :: returned (alloc c)) ∧
    (free P + 1 ≠ total P →
     (∃ P', pages s' !! p = Some P' ∧ free P' = free P + 1) ∧
     returned s' = returned (alloc c)).
Proof.
  intros HI Hslot.
  destruct (Deallocate_put_spec c slot HI Hslot)
    as (p & P & s1 & P1 & Hp & Hsl & HP & Hrun1 & HI1 & HP1 & Hf1 & Hret1 & Hacq1).
  assert (0 ≤ free P) as Hf0.
  { destruct HI as [_ _ Hpages _ _ _ _ _]. eapply page_ok_free.
    by apply (Hpages p P). }
  destruct (Deallocate_sweep_spec p s1 _ P1 HI1 HP1 ltac:(lia))
    as (s2 & Hrun2 & HI2 & Hacq2 & Hidle & Hbusy).
  assert (total P1 = total P) as Ht.
  { destruct HI as [_ _ Hpages _ _ _ _ _]. destruct HI1 as [_ _ Hpages1 _ _ _ _ _].
    destruct (Hpages p P HP) as (_ & _ & _ & -> & _).
    by destruct (Hpages1 p P1 HP1) as (_ & _ & _ & -> & _). }
  exists p, P, s2. split; [done|]. split; [done|]. split.
  { rewrite Deallocate_halves, <- Hp. unfold bind. by rewrite Hrun1. }
  split; [done|].
  rewrite <- Hf1, <- Ht. split; [congruence|split].
  - intros E. destruct (Hidle E) as (? & ? & _). split; [done|congruence].
  - intros E. rewrite (Hbusy E). split; [by exists P1|done].
Qed.

(** A failed [PagePool]: the null page reaches [InitPage] unchecked. *)
Lemma Allocate_null c junk :
  Inv c → nonFull (alloc c) = 0 →
  PageAllocator_Allocate PAGE sizeof_Page 0 junk (alloc c) = Abort NullDeref.
Proof.
  intros [_ _ Hpages _ _ _ _ _] Hnf.
  assert (pages (alloc c) !! 0 = None) as H0.
  { destruct (pages (alloc c) !! 0) as [P|] eqn:E; [|done].
    destruct (Hpages 0 P E). lia. }
  rewrite Allocate_halves. unfold bind at 1. rewrite Hnf. simpl.
  unfold Allocate_grow, CreatePage, PagePool_GetPage. simpl.
  unfold bind at 1. unfold ret at 1. unfold InitPage.
  unfold bind at 1. unfold bind at 1. unfold updPage at 1. by rewrite H0.
Qed.

Lemma pool_ok_spec s fresh :
  fresh ≠ 0 → pool_ok PAGE s fresh = true →
  0 < fresh ∧ fresh mod PAGE = 0 ∧ fresh + PAGE ≤ 2 ^ 64 ∧
  pages s !! fresh = None.
Proof.
  intros Hf. unfold pool_ok.
  destruct (Z.eqb_spec fresh 0); [done|]. simpl.
  destruct (Z.ltb_spec 0 fresh); simpl; [|done].
  destruct (Z.eqb_spec (fresh mod PAGE) 0); simpl; [|done].
  destruct (Z.leb_spec (fresh + PAGE) (2 ^ 64)); simpl; [|done].
  case_bool_decide; done.
Qed.

Lemma poke_Inv c a b :
  Inv c → poke_ok PAGE c a = true →
  Inv (mkClient (set_mem (λ m, poke m a b) (alloc c)) (live c)).
Proof.
  intros [Hsize Hstr Hpages Hbusy Hlist Hcount [Hnd Hlive] Hpool] Hok.
  pose proof (cfg_stride _ _ _ Hcfg) as (_ & Hs & Hsz & _).
  constructor; simpl; try done.
  intros q Q HQ. pose proof (Hpages q Q HQ) as HokQ.
  eapply page_ok_transfer; [..|exact HokQ]; try done.
  intros x Hx Hxh. apply keeps_poke.
  pose proof HokQ as (_ & Hqal & _).
  unfold poke_ok in Hok. apply orb_true_iff in Hok as [Hok|Hok].
  - apply existsb_exists in Hok as (r & Hr & Hra).
    apply andb_true_iff in Hra as [Hra1 Hra2].
    apply Z.leb_le in Hra1. apply Z.ltb_lt in Hra2. rewrite Hsize in Hra2.
    apply list_elem_of_In in Hr.
    destruct (Hlive r Hr) as (q' & [Q' HQ'] & Hqr).
    destruct (Hpages q' Q' HQ') as (_ & Hqal' & _).
    assert (x ≠ r) as Hne by (by intros ->).
    destruct (slot_sep _ _ _ Hcfg q q' x r); try done; lia.
  - apply bool_decide_eq_true in Hok.
    destruct (Z_lt_le_dec a x) as [?|?]; [by left|].
    destruct (Z_lt_le_dec a (x + 8)) as [?|?]; [|by right].
    exfalso. pose proof (slot_bounds _ _ _ Hcfg _ _ Hx).
    pose proof (cfg_offset sizeof_Page) as [? _].
    rewrite (page_AlignDown _ _ _ Hcfg q a) in Hok by (try done; lia).
    by rewrite HQ in Hok.
Qed.

Lemma step_Inv o c c' :
  Inv c → step PAGE sizeof_Page o c = Done c' → Inv c'.
Proof.
  intros HI. destruct o as [fresh junk|slot|a b]; simpl.
  - destruct (Z.eqb_spec (nonFull (alloc c)) 0) as [Hz|Hnz]; simpl.
    + unfold pool_ok. destruct (Z.eqb_spec fresh 0) as [->|Hf]; simpl.
      { by rewrite Allocate_null. }
      destruct (Z.ltb_spec 0 fresh); simpl; [|done].
      destruct (Z.eqb_spec (fresh mod PAGE) 0); simpl; [|done].
      destruct (Z.leb_spec (fresh + PAGE) (2 ^ 64)); simpl; [|done].
      case_bool_decide; simpl; [|done].
      destruct (Allocate_spec c fresh junk HI) as (r & s' & p & -> & HI' & _);
        [done|]. by intros [= <-].
    + destruct (Allocate_spec c fresh junk HI) as (r & s' & p & -> & HI' & _);
        [done|]. by intros [= <-].
  - unfold dealloc_ok. case_bool_decide as Hslot; [|done].
    destruct (Deallocate_spec c slot HI Hslot) as (p & P & s' & _ & _ & -> & HI' & _).
    by intros [= <-].
  - destruct (poke_ok PAGE c a) eqn:Hok; [|done].
    intros [= <-]. by apply poke_Inv.
Qed.

(** Within the contracts, the only way an operation does not return is
    the null page of a failed [PagePool]. *)
Lemma step_safe o c :
  Inv c →
  match step PAGE sizeof_Page o c with
  | Done c' => Inv c'
  | Stopped f => f = NullDeref
  | Misuse => True
  end.
Proof.
  intros HI. destruct (step PAGE sizeof_Page o c) as [c'|f|] eqn:Hstep;
    [by eapply step_Inv|..|done].
  destruct o as [fresh junk|slot|a b]; simpl in Hstep.
  - destruct (Z.eqb_spec (nonFull (alloc c)) 0) as [Hz|Hnz]; simpl in Hstep.
    + destruct (Z.eqb_spec fresh 0) as [->|Hf].
      { rewrite Allocate_null in Hstep by done. simpl in Hstep. congruence. }
      destruct (pool_ok PAGE (alloc c) fresh) eqn:Hok; [|done].
      destruct (Allocate_spec c fresh junk HI) as (r & s' & p & Hr & _).
      { intros _. by apply pool_ok_spec. }
      by rewrite Hr in Hstep.
    + destruct (Allocate_spec c fresh junk HI ltac:(done)) as (r & s' & p & Hr & _).
      by rewrite Hr in Hstep.
  - unfold dealloc_ok in Hstep. case_bool_decide as Hslot; [|done].
    destruct (Deallocate_spec c slot HI Hslot) as (p & P & s' & _ & _ & Hd & _).
    by rewrite Hd in Hstep.
  - by destruct (poke_ok PAGE c a).
Qed.

Lemma run_Inv ops c c' :
  Inv c → run PAGE sizeof_Page ops c = Done c' → Inv c'.
Proof.
  revert c. induction ops as [|o ops IH]; intros c HI; simpl.
  - by intros [= <-].
  - destruct (step PAGE sizeof_Page o c) as [c1| |] eqn:Hstep; try done.
    apply IH. by eapply step_Inv.
Qed.

Lemma run_safe ops c :
  Inv c →
  match run PAGE sizeof_Page ops c with
  | Done c' => Inv c'
  | Stopped f => f = NullDeref
  | Misuse => True
  end.
Proof.
  revert c. induction ops as [|o ops IH]; intros c HI; simpl; [done|].
  pose proof (step_safe o c HI) as Hs.
  destruct (step PAGE sizeof_Page o c) as [c1|f|]; [by apply IH|done..].
Qed.

Lemma start_Inv m : Inv (start m size).
Proof.
  constructor; simpl; try done.
  - exists []. split; [done|]. split; [constructor|]. intros p P H.
    by rewrite lookup_empty in H.
  - split; [constructor|]. intros r H. inversion H.
Qed.

Lemma reach_Inv m ops c :
  run PAGE sizeof_Page ops (start m size) = Done c → Inv c.
Proof. apply run_Inv, start_Inv. Qed.

Lemma in_nonFull_iff c p P :
  Inv c → pages (alloc c) !! p = Some P →
  in_nonFull (alloc c) p ↔ free P ≠ 0.
Proof.
  intros [_ _ Hpages _ (l & Hd & _ & Hmem) _ _ _] HP.
  unfold in_nonFull. rewrite (on_list_dseg _ _ _ _ _ Hd).
  destruct (Hmem p P HP) as [-> _].
  pose proof (page_ok_free _ _ _ _ (Hpages p P HP)). lia.
Qed.

Lemma in_nonFull_held c p :
  Inv c → in_nonFull (alloc c) p → is_Some (pages (alloc c) !! p).
Proof.
  intros [_ _ _ _ (l & Hd & _ & _) _ _ _].
  unfold in_nonFull. rewrite (on_list_dseg _ _ _ _ _ Hd).
  intros Hp. by destruct (dseg_elem _ _ _ _ _ _ Hd Hp).
Qed.

(** *** Properties of one PageAllocator *)

(** C1: between operations, after any sequence of Allocate and Deallocate
    calls, a page the allocator holds is on the nonFull list if and only
    if its count of free slots is not zero. *)
Theorem nonFull_iff_free m ops c p P :
  run PAGE sizeof_Page ops (start m size) = Done c →
  pages (alloc c) !! p = Some P →
  in_nonFull (alloc c) p ↔ free P ≠ 0.
Proof. intros Hrun HP. apply in_nonFull_iff; [|done]. by eapply reach_Inv. Qed.

(** C2: an idle page does not persist.  Between operations no held page
    has [free = total]; and a Deallocate call that brings the free count of
    a page up to its total takes the page off the nonFull list and gives it
    back to the PagePool within that call, while any other Deallocate
    leaves the page held. *)
Theorem idle_page_released m ops c :
  run PAGE sizeof_Page ops (start m size) = Done c →
  (∀ p P, pages (alloc c) !! p = Some P → free P ≠ total P) ∧
  (∀ slot, slot ∈ live c →
     ∃ p P s',
       p = AlignDown slot PAGE ∧ pages (alloc c) !! p = Some P ∧
       PageAllocator_Deallocate PAGE slot (alloc c) = Ret tt s' ∧
       (free P + 1 = total P →
        pages s' !! p = None ∧ ¬ in_nonFull s' p ∧
        returned s' = p :: returned (alloc c)) ∧
       (free P + 1 ≠ total P →
        is_Some (pages s' !! p) ∧ returned s' = returned (alloc c))).
Proof.
  intros Hrun. pose proof (reach_Inv _ _ _ Hrun) as HI. split.
  - intros p P HP. destruct HI as [_ _ Hpages Hbusy _ _ _ _].
    destruct (Hpages p P HP) as (Hp & _ & _ & -> & _).
    pose proof (Hbusy p P HP). lia.
  - intros slot Hslot.
    destruct (Deallocate_spec c slot HI Hslot)
      as (p & P & s' & Hp & HP & Hd & HI' & _ & Hidle & Hbusy).
    exists p, P, s'. do 3 (split; [done|]). split.
    + intros E. destruct (Hidle E) as [Hgone Hret]. split; [done|].
      split; [|done]. intros Hon.
      apply (in_nonFull_held _ _ HI') in Hon. simpl in Hon.
      rewrite Hgone in Hon. by destruct Hon.
    + intros E. destruct (Hbusy E) as [(P' & HP' & _) Hret]. eauto.
Qed.

(** C3: every pointer Allocate returns is aligned to the allocation
    alignment (8 bytes), and the [size] bytes from it on are zero when
    Allocate returns. *)
Theorem Allocate_aligned_zeroed m ops c fresh junk r s' :
  run PAGE sizeof_Page ops (start m size) = Done c →
  (nonFull (alloc c) = 0 → pool_ok PAGE (alloc c) fresh = true) →
  PageAllocator_Allocate PAGE sizeof_Page fresh junk (alloc c) = Ret r s' →
  r ≠ 0 ∧ r mod ALLOC_ALIGNMENT = 0 ∧
  ∀ i, 0 ≤ i < size → mem s' (r + i) = 0.
Proof.
  intros Hrun Hpool Halloc. pose proof (reach_Inv _ _ _ Hrun) as HI.
  destruct (Z.eq_dec fresh 0) as [->|Hf].
  { destruct (Z.eq_dec (nonFull (alloc c)) 0) as [Hz|Hnz].
    - by rewrite Allocate_null in Halloc.
    - destruct (Allocate_spec c 0 junk HI ltac:(done))
        as (r0 & s0 & p & Hr & HI' & Hsl & Hal & [Q HQ] & Hzero & _).
      rewrite Hr in Halloc. injection Halloc as <- <-.
      destruct HI' as [_ _ Hpages _ _ _ _ _].
      destruct (Hpages p Q HQ) as (Hp0 & _).
      split; [by apply (slot_pos _ _ _ Hcfg p)|].
      split; [by apply (slot_mod8 _ _ _ Hcfg p)|done]. }
  destruct (Allocate_spec c fresh junk HI)
    as (r0 & s0 & p & Hr & HI' & Hsl & Hal & [Q HQ] & Hzero & _).
  { intros Hz. by apply pool_ok_spec, Hpool. }
  rewrite Hr in Halloc. injection Halloc as <- <-.
  destruct HI' as [_ _ Hpages _ _ _ _ _].
  destruct (Hpages p Q HQ) as (Hp0 & _).
  split; [by apply (slot_pos _ _ _ Hcfg p)|].
  split; [by apply (slot_mod8 _ _ _ Hcfg p)|done].
Qed.

(** Within the contract of the PagePool, and unless it fails, Allocate
    returns. *)
Lemma Allocate_returns m ops c fresh junk :
  run PAGE sizeof_Page ops (start m size) = Done c →
  (nonFull (alloc c) = 0 → fresh ≠ 0 ∧ pool_ok PAGE (alloc c) fresh = true) →
  ∃ r s', PageAllocator_Allocate PAGE sizeof_Page fresh junk (alloc c) = Ret r s'.
Proof.
  intros Hrun Hpool. pose proof (reach_Inv _ _ _ Hrun) as HI.
  destruct (Allocate_spec c fresh junk HI) as (r & s' & _ & Hr & _); [|eauto].
  intros Hz. destruct (Hpool Hz). by apply pool_ok_spec.
Qed.

(** C4, as amended: every pointer Allocate returns is one of the slots of
    its page: it lies at the page start plus the header offset plus a
    multiple of the stride, below the slot count.  It is aligned to the
    stride relative to the first slot of the page, and to the allocation
    alignment as an address. *)
Theorem Allocate_slot_of_page m ops c fresh junk r s' :
  run PAGE sizeof_Page ops (start m size) = Done c →
  (nonFull (alloc c) = 0 → pool_ok PAGE (alloc c) fresh = true) →
  PageAllocator_Allocate PAGE sizeof_Page fresh junk (alloc c) = Ret r s' →
  ∃ k, 0 ≤ k < T ∧
       r = AlignDown r PAGE + off + k * str ∧
       (r - (AlignDown r PAGE + off)) mod str = 0 ∧
       r mod ALLOC_ALIGNMENT = 0.
Proof.
  intros Hrun Hpool Halloc. pose proof (reach_Inv _ _ _ Hrun) as HI.
  assert (∃ p, is_slot p r ∧ p mod PAGE = 0) as (p & Hsl & Hal).
  { destruct (Z.eq_dec (nonFull (alloc c)) 0) as [Hz|Hnz].
    - destruct (Z.eq_dec fresh 0) as [->|Hf].
      { by rewrite Allocate_null in Halloc. }
      destruct (Allocate_spec c fresh junk HI)
        as (r0 & s0 & p & Hr & _ & Hsl & Hal & _).
      { intros _. by apply pool_ok_spec, Hpool. }
      rewrite Hr in Halloc. injection Halloc as <- <-. eauto.
    - destruct (Allocate_spec c fresh junk HI ltac:(done))
        as (r0 & s0 & p & Hr & _ & Hsl & Hal & _).
      rewrite Hr in Halloc. injection Halloc as <- <-. eauto. }
  rewrite (slot_AlignDown _ _ _ Hcfg p r Hal Hsl).
  pose proof (slot_mod8 _ _ _ Hcfg p r Hal Hsl) as H8.
  destruct Hsl as (k & Hk & ->). exists k. unfold slot_at.
  split; [done|]. split; [done|]. split; [|done].
  replace (p + off + k * str - (p + off)) with (k * str) by lia.
  apply Z_mod_mult.
Qed.

(** C6: as long as callers give back only slots they hold (so that no
    slot is freed twice), two allocations that are live at the same time
    occupy disjoint ranges of [size] bytes. *)
Theorem live_slots_disjoint m ops c i j a b :
  run PAGE sizeof_Page ops (start m size) = Done c →
  live c !! i = Some a → live c !! j = Some b → i ≠ j →
  a + size ≤ b ∨ b + size ≤ a.
Proof.
  intros Hrun Ha Hb Hij.
  destruct (reach_Inv _ _ _ Hrun) as [_ _ Hpages _ _ _ [Hnd Hlive] _].
  assert (a ≠ b) as Hne.
  { intros ->. apply Hij. by eapply NoDup_lookup. }
  destruct (Hlive a) as (p & [P HP] & Hpa); [by eapply list_elem_of_lookup_2|].
  destruct (Hlive b) as (q & [Q HQ] & Hqb); [by eapply list_elem_of_lookup_2|].
  destruct (Hpages p P HP) as (_ & Hpal & _).
  destruct (Hpages q Q HQ) as (_ & Hqal & _).
  pose proof (cfg_stride _ _ _ Hcfg) as (_ & _ & Hsz & _).
  destruct (slot_sep _ _ _ Hcfg p q a b); try done; lia.
Qed.

(** Giving back all held slots, in any order, empties the allocator. *)
Lemma Deallocate_all order :
  ∀ c, Inv c → order ≡ₚ live c →
       ∃ c', run PAGE sizeof_Page (map OpDeallocate order) c = Done c' ∧
             Inv c' ∧ live c' = [] ∧
             acquired (alloc c') = acquired (alloc c).
Proof.
  induction order as [|x order IH]; intros c HI Hperm.
  - exists c. simpl. split; [done|]. split; [done|]. split; [|done].
    symmetry in Hperm. by apply Permutation_nil_r in Hperm.
  - assert (x ∈ live c) as Hx by (rewrite <- Hperm; left).
    destruct (Deallocate_spec c x HI Hx)
      as (p & P & s' & _ & _ & Hd & HI' & Hacq & _).
    destruct (IH (mkClient s' (remove_one x (live c))) HI')
      as (c' & Hrun & HI2 & Hlive & Hacq2).
    + simpl. apply (Permutation_cons_inv (a := x)).
      rewrite Hperm. clear -Hx.
      induction (live c) as [|y l IHl]; [inversion Hx|]. simpl.
      destruct (Z.eqb_spec x y) as [->|Hne]; [done|].
      apply elem_of_cons in Hx as [?|Hx]; [done|].
      rewrite (IHl Hx) at 1. apply perm_swap.
    + exists c'. simpl. unfold dealloc_ok. rewrite bool_decide_eq_true_2 by done.
      rewrite Hd. split; [done|]. split; [done|]. split; [done|].
      simpl in Hacq2. congruence.
Qed.

(** An allocator whose callers hold nothing holds no page. *)
Lemma no_slot_no_page c : Inv c → live c = [] → pages (alloc c) = ∅.
Proof.
  intros [_ _ Hpages Hbusy _ _ _ _] Hlive. apply map_empty. intros p.
  destruct (pages (alloc c) !! p) as [P|] eqn:HP; [|done]. exfalso.
  pose proof (Hpages p P HP) as Hok.
  pose proof Hok as (Hp0 & _ & _ & _ & _ & l & _ & Hlen & Hnd & Hin & Hall).
  pose proof (Hbusy p P HP ltac:(lia)) as Hlt.
  pose proof Hcfg as (_ & _ & _ & Ht).
  assert (slots_from size (p + off) (Z.to_nat T) ⊆+ l) as Hsub.
  { apply NoDup_submseteq; [apply (slots_from_NoDup _ _ _ Hcfg)|].
    intros x Hx. apply (is_slot_slots_from _ _ _ Hcfg) in Hx.
    destruct (Hall x Hx) as [?|Hh]; [done|]. rewrite Hlive in Hh. inversion Hh. }
  apply submseteq_length in Hsub. rewrite slots_from_length in Hsub. lia.
Qed.

Lemma Allocate_only_length supplies :
  ∀ c c', run PAGE sizeof_Page (map (λ fj, OpAllocate fj.1 fj.2) supplies) c = Done c' →
          length (live c') = (length supplies + length (live c))%nat.
Proof.
  induction supplies as [|[f j] supplies IH]; intros c c'; simpl.
  - by intros [= <-].
  - destruct (_ || _); [|done].
    destruct (PageAllocator_Allocate _ _ _ _ _) as [r s|]; [|done].
    intros Hrun. rewrite (IH _ _ Hrun). simpl. lia.
Qed.

(** C7: starting from a new allocator, after N Allocate calls followed by
    Deallocate calls for the N returned slots in any order, the count of
    held pages, [totalPages], is back at its initial value 0, no page is
    held, and every page obtained from the PagePool has been given back. *)
Theorem Allocate_Deallocate_roundtrip m supplies order c1 :
  run PAGE sizeof_Page (map (λ fj, OpAllocate fj.1 fj.2) supplies)
      (start m size) = Done c1 →
  order ≡ₚ live c1 →
  length (live c1) = length supplies ∧
  ∃ c2, run PAGE sizeof_Page (map OpDeallocate order) c1 = Done c2 ∧
        totalPages (alloc c2) = totalPages (alloc (start m size)) ∧
        pages (alloc c2) = ∅ ∧
        live c2 = [] ∧
        returned (alloc c2) ≡ₚ acquired (alloc c1).
Proof.
  intros Hrun Hperm. split.
  { rewrite (Allocate_only_length _ _ _ Hrun). simpl. lia. }
  pose proof (reach_Inv _ _ _ Hrun) as HI.
  destruct (Deallocate_all order c1 HI Hperm) as (c2 & Hrun2 & HI2 & Hlive & Hacq).
  pose proof (no_slot_no_page c2 HI2 Hlive) as Hempty.
  exists c2. split; [done|].
  destruct HI2 as [_ _ _ _ _ Hcount _ Hpool].
  rewrite Hempty in Hcount, Hpool.
  split; [by rewrite Hcount|]. split; [done|]. split; [done|].
  rewrite <- Hacq, Hpool, dom_empty_L, elements_empty. by rewrite app_nil_r.
Qed.

(** C9, at a failing PagePool: when the PagePool answers with null,
    Allocate does not return to its caller and asks for no second page;
    but nothing checks the answer: the null page is handed to [InitPage],
    whose first member access goes through it, where the spec has an
    abort with a diagnostic. *)
Theorem Allocate_pool_failure m ops c junk :
  run PAGE sizeof_Page ops (start m size) = Done c →
  nonFull (alloc c) = 0 →
  PageAllocator_Allocate PAGE sizeof_Page 0 junk (alloc c) = Abort NullDeref.
Proof. intros Hrun Hnf. apply Allocate_null; [|done]. by eapply reach_Inv. Qed.

(** *** More about one PageAllocator *)

(** X1: whenever the callers hold no slot, after any interleaving of
    Allocate and Deallocate calls, the allocator holds no page: the list is
    empty, [totalPages] is 0 and every page acquired has been given back. *)
Theorem nothing_held_nothing_kept m ops c :
  run PAGE sizeof_Page ops (start m size) = Done c →
  live c = [] →
  pages (alloc c) = ∅ ∧ nonFull (alloc c) = 0 ∧ totalPages (alloc c) = 0 ∧
  returned (alloc c) ≡ₚ acquired (alloc c).
Proof.
  intros Hrun Hlive. pose proof (reach_Inv _ _ _ Hrun) as HI.
  pose proof (no_slot_no_page c HI Hlive) as Hempty.
  destruct HI as [_ _ _ _ (l & Hd & _ & _) Hcount _ Hpool].
  rewrite Hempty in *. split; [done|]. split; [|split].
  - apply (dseg_head _ _ _ _ Hd). destruct l as [|x l]; [done|].
    destruct (dseg_elem _ _ _ _ _ x Hd) as [_ [P HP]]; [left|].
    by rewrite lookup_empty in HP.
  - by rewrite Hcount.
  - by rewrite Hpool, dom_empty_L, elements_empty, app_nil_r.
Qed.

(** X2: [totalPages] counts the pages acquired from the PagePool and not
    yet given back, modulo 2^32; the pages acquired are those given back
    together with those held. *)
Theorem totalPages_accounting m ops c :
  run PAGE sizeof_Page ops (start m size) = Done c →
  acquired (alloc c) ≡ₚ returned (alloc c) ++ elements (dom (pages (alloc c))) ∧
  (length (returned (alloc c)) ≤ length (acquired (alloc c)))%nat ∧
  totalPages (alloc c) =
    (Z.of_nat (length (acquired (alloc c))) -
     Z.of_nat (length (returned (alloc c)))) mod 2 ^ 32.
Proof.
  intros Hrun. destruct (reach_Inv _ _ _ Hrun) as [_ _ _ _ _ Hcount _ Hpool].
  split; [done|].
  assert (length (acquired (alloc c)) =
          (length (returned (alloc c)) + base.size (pages (alloc c)))%nat) as E.
  { rewrite Hpool, length_app. f_equal.
    rewrite <- (size_dom (D := gset Z)). done. }
  split; [lia|]. rewrite Hcount. f_equal. lia.
Qed.

(** X3: every held slot lies in a page the allocator holds, behind the
    header of that page, and its [size] bytes end inside the page. *)
Theorem live_blocks_inside_pages m ops c r :
  run PAGE sizeof_Page ops (start m size) = Done c →
  r ∈ live c →
  is_Some (pages (alloc c) !! AlignDown r PAGE) ∧
  AlignDown r PAGE + off ≤ r ∧
  r + size ≤ AlignDown r PAGE + PAGE.
Proof.
  intros Hrun Hr.
  destruct (reach_Inv _ _ _ Hrun) as [_ _ Hpages _ _ _ [_ Hlive] _].
  destruct (Hlive r Hr) as (p & [P HP] & Hsl).
  destruct (Hpages p P HP) as (_ & Hal & _).
  rewrite (slot_AlignDown _ _ _ Hcfg p r Hal Hsl).
  pose proof (slot_bounds _ _ _ Hcfg p r Hsl).
  pose proof (cfg_stride _ _ _ Hcfg) as (_ & _ & ? & _).
  split; [by exists P|lia].
Qed.

Lemma step_stopped o c f :
  Inv c → step PAGE sizeof_Page o c = Stopped f →
  f = NullDeref ∧ ∃ junk, o = OpAllocate 0 junk.
Proof.
  intros HI Hstep. destruct o as [fresh junk|slot|a b]; simpl in Hstep.
  - destruct (Z.eqb_spec (nonFull (alloc c)) 0) as [Hz|Hnz]; simpl in Hstep.
    + destruct (Z.eqb_spec fresh 0) as [->|Hf].
      { rewrite Allocate_null in Hstep by done. simpl in Hstep.
        split; [congruence|eauto]. }
      destruct (pool_ok PAGE (alloc c) fresh) eqn:Hok; [|done].
      destruct (Allocate_spec c fresh junk HI) as (r & s' & p & Hr & _).
      { intros _. by apply pool_ok_spec. }
      by rewrite Hr in Hstep.
    + destruct (Allocate_spec c fresh junk HI ltac:(done)) as (r & s' & p & Hr & _).
      by rewrite Hr in Hstep.
  - unfold dealloc_ok in Hstep. case_bool_decide as Hslot; [|done].
    destruct (Deallocate_spec c slot HI Hslot) as (p & P & s' & _ & _ & Hd & _).
    by rewrite Hd in Hstep.
  - by destruct (poke_ok PAGE c a).
Qed.

(** X4: as long as the callers and the PagePool keep to their contracts,
    Allocate and Deallocate always return, unless the PagePool fails: a run
    that stops has stopped in an Allocate that was answered with the null
    page, at its dereference.  No check of [DestroyPage], [InitPage] or
    [memset_s] fails, and no page pointer outside the held pages is
    followed. *)
Theorem run_stops_only_on_pool_failure m ops f :
  run PAGE sizeof_Page ops (start m size) = Stopped f →
  f = NullDeref ∧ ∃ junk, OpAllocate 0 junk ∈ ops.
Proof.
  generalize (start_Inv m). generalize (start m size).
  induction ops as [|o ops IH]; intros c HI; simpl; [done|].
  destruct (step PAGE sizeof_Page o c) as [c1|f1|] eqn:Hstep; [| |done].
  - intros Hrun. destruct (IH c1) as (-> & junk & Hin); [by eapply step_Inv|done|].
    split; [done|]. exists junk. by right.
  - intros [= ->]. destruct (step_stopped o c f HI Hstep) as (-> & junk & ->).
    split; [done|]. exists junk. left.
Qed.

Lemma nonFull_null_iff c :
  Inv c →
  nonFull (alloc c) = 0 ↔ ∀ p P, pages (alloc c) !! p = Some P → free P = 0.
Proof.
  intros [_ _ Hpages _ (l & Hd & _ & Hmem) _ _ _].
  rewrite (dseg_head _ _ _ _ Hd). split.
  - intros -> p P HP. destruct (Hmem p P HP) as [Hiff _].
    pose proof (page_ok_free _ _ _ _ (Hpages p P HP)).
    destruct (decide (0 < free P)) as [Hpos|]; [|lia].
    apply Hiff in Hpos. inversion Hpos.
  - intros Hfull. destruct l as [|x l]; [done|]. exfalso.
    destruct (dseg_elem _ _ _ _ _ x Hd) as [_ [P HP]]; [left|].
    destruct (Hmem x P HP) as [Hiff _]. specialize (Hfull x P HP).
    assert (0 < free P) by (apply Hiff; left). lia.
Qed.

(** X5: Allocate asks the PagePool for a page only when the nonFull list
    is empty, which is when every held page is full, and then for one;
    it never gives a page back. *)
Theorem Allocate_acquires_lazily m ops c fresh junk r s' :
  run PAGE sizeof_Page ops (start m size) = Done c →
  (nonFull (alloc c) = 0 → pool_ok PAGE (alloc c) fresh = true) →
  PageAllocator_Allocate PAGE sizeof_Page fresh junk (alloc c) = Ret r s' →
  (nonFull (alloc c) = 0 ↔
   ∀ p P, pages (alloc c) !! p = Some P → free P = 0) ∧
  acquired s' =
    (if nonFull (alloc c) =? 0 then [fresh] else []) ++ acquired (alloc c) ∧
  returned s' = returned (alloc c).
Proof.
  intros Hrun Hpool Halloc. pose proof (reach_Inv _ _ _ Hrun) as HI.
  split; [by apply nonFull_null_iff|].
  destruct (Allocate_spec c fresh junk HI)
    as (r0 & s0 & p & Hr & _ & _ & _ & _ & _ & Hret & Hacq).
  { intros Hz. apply pool_ok_spec; [|by apply Hpool].
    intros ->. by rewrite Allocate_null in Halloc. }
  rewrite Hr in Halloc. by injection Halloc as <- <-.
Qed.

(** A held page has a held slot. *)
Lemma held_page_held_slot c p :
  Inv c → is_Some (pages (alloc c) !! p) →
  ∃ r, r ∈ live c ∧ AlignDown r PAGE = p.
Proof.
  intros [_ _ Hpages Hbusy _ _ _ _] [P HP].
  pose proof (Hpages p P HP) as Hok.
  pose proof Hok as (Hp0 & Hal & _ & _ & _ & l & _ & Hlen & Hnd & Hin & Hall).
  pose proof (Hbusy p P HP ltac:(lia)) as Hlt.
  pose proof Hcfg as (_ & _ & _ & Ht).
  destruct (decide (Exists (λ x, x ∈ live c)
                      (slots_from size (p + off) (Z.to_nat T)))) as [Hex|Hno].
  - apply Exists_exists in Hex as (r & Hr & Hrl). exists r. split; [done|].
    apply (slot_AlignDown _ _ _ Hcfg); [done|].
    by apply (is_slot_slots_from _ _ _ Hcfg).
  - exfalso.
    assert (slots_from size (p + off) (Z.to_nat T) ⊆+ l) as Hsub.
    { apply NoDup_submseteq; [apply (slots_from_NoDup _ _ _ Hcfg)|].
      intros x Hx. pose proof Hx as Hx'.
      apply (is_slot_slots_from _ _ _ Hcfg) in Hx.
      destruct (Hall x Hx) as [?|Hh]; [done|].
      exfalso. apply Hno. apply Exists_exists. eauto. }
    apply submseteq_length in Hsub. rewrite slots_from_length in Hsub. lia.
Qed.

(** X6: the allocator holds at most as many pages as there are held
    slots, and a page carries at most [T] of them: with N slots held, the
    number of held pages lies between N / T and N. *)
Theorem held_pages_bounded m ops c :
  run PAGE sizeof_Page ops (start m size) = Done c →
  Z.of_nat (base.size (pages (alloc c))) ≤ Z.of_nat (length (live c)) ∧
  Z.of_nat (length (live c)) ≤ T * Z.of_nat (base.size (pages (alloc c))).
Proof.
  intros Hrun. pose proof (reach_Inv _ _ _ Hrun) as HI.
  pose proof Hcfg as (_ & _ & _ & Ht). split.
  - assert (elements (dom (pages (alloc c))) ⊆+
            (λ r, AlignDown r PAGE) <$> live c) as Hsub.
    { apply NoDup_submseteq; [apply NoDup_elements|].
      intros p Hp. apply elem_of_elements, elem_of_dom in Hp.
      destruct (held_page_held_slot c p HI Hp) as (r & Hr & <-).
      apply list_elem_of_fmap. by exists r. }
    apply submseteq_length in Hsub. rewrite length_fmap in Hsub.
    rewrite <- (size_dom (D := gset Z)). unfold base.size, set_size. simpl. lia.
  - destruct HI as [_ _ Hpages _ _ _ [Hnd Hlive] _].
    assert (live c ⊆+
            elements (dom (pages (alloc c))) ≫=
              (λ p, slots_from size (p + off) (Z.to_nat T))) as Hsub.
    { apply NoDup_submseteq; [done|]. intros r Hr.
      destruct (Hlive r Hr) as (p & Hp & Hsl).
      apply list_elem_of_bind. exists p. split.
      - by apply (is_slot_slots_from _ _ _ Hcfg).
      - by apply elem_of_elements, elem_of_dom. }
    apply submseteq_length in Hsub.
    assert (∀ ps : list Z,
      length (ps ≫= (λ p, slots_from size (p + off) (Z.to_nat T))) =
      (Z.to_nat T * length ps)%nat) as Hlen.
    { induction ps as [|p ps IHps]; [simpl; lia|].
      rewrite bind_cons, length_app, slots_from_length, IHps. simpl. lia. }
    rewrite Hlen in Hsub. rewrite <- (size_dom (D := gset Z)).
    unfold base.size, set_size in *. simpl in *. nia.
Qed.

Lemma Allocate_grow_frame c fresh junk s1 :
  Inv c → 0 < fresh → fresh + PAGE ≤ 2 ^ 64 →
  Allocate_grow PAGE sizeof_Page fresh junk (alloc c) = Ret tt s1 →
  (∀ x, x < fresh ∨ fresh + PAGE ≤ x → mem s1 x = mem (alloc c) x) ∧
  nonFull s1 = fresh ∧
  ∃ H, pages s1 !! fresh = Some H ∧ header H = fresh + off.
Proof.
  intros [_ Hstr _ _ _ _ _ _] Hf0 Hfend.
  destruct c as [s held]. destruct s as [pg m nf tp ss sa acq rt].
  simpl in *.
  destruct (InitPage_spec
              (mkState (<[fresh := junk]> pg) m nf tp ss sa (fresh :: acq) rt)
              fresh junk) as (m' & Hrun & _ & Hframe);
    [apply lookup_insert_eq|done|done|done|].
  unfold rebuild in Hrun. simpl in Hrun, Hframe.
  unfold Allocate_grow, CreatePage, PagePool_GetPage.
  destruct (Z.eqb_spec fresh 0); [lia|].
  unfold bind at 1. unfold bind at 2. unfold bind at 2. unfold modify at 1 2.
  unfold ret at 1. simpl. unfold set_pages, log_acquired; simpl.
  unfold bind at 1. rewrite Hrun. run_monad.
  intros [= <-]. simpl. split; [exact Hframe|]. split; [done|].
  eexists. rewrite insert_insert_eq, lookup_insert_eq. done.
Qed.

(** X7: apart from the page headers of the held pages, Deallocate writes
    only the first eight bytes of the slot it is given, its link in the
    free list; the contents of every other held slot stay as they are. *)
Theorem Deallocate_keeps_held_data m ops c slot s' :
  run PAGE sizeof_Page ops (start m size) = Done c →
  slot ∈ live c →
  PageAllocator_Deallocate PAGE slot (alloc c) = Ret tt s' →
  (∀ x, ¬ (slot ≤ x < slot + 8) →
        (∀ p, is_Some (pages (alloc c) !! p) → ¬ (p ≤ x < p + sizeof_Page)) →
        mem s' x = mem (alloc c) x) ∧
  (∀ a i, a ∈ live c → a ≠ slot → 0 ≤ i < size →
          mem s' (a + i) = mem (alloc c) (a + i)).
Proof.
  intros Hrun Hslot Hd.
  destruct (frames_Deallocate PAGE slot _ _ _ Hd) as (_ & _ & Hframe).
  split; [by intros x Hx _; apply Hframe|].
  intros a i Ha Hne Hi. apply Hframe.
  destruct (reach_Inv _ _ _ Hrun) as [_ _ Hpages _ _ _ [_ Hlive] _].
  destruct (Hlive a Ha) as (q & [Q HQ] & Hqa).
  destruct (Hlive slot Hslot) as (p & [P HP] & Hps).
  destruct (Hpages q Q HQ) as (_ & Hqal & _).
  destruct (Hpages p P HP) as (_ & Hpal & _).
  pose proof (cfg_stride _ _ _ Hcfg) as (_ & ? & ? & _).
  destruct (slot_sep _ _ _ Hcfg q p a slot); try done; lia.
Qed.

(** X8: Allocate leaves the contents of every held slot as they are: it
    writes the slot it returns and, if it takes a new page, that page. *)
Theorem Allocate_keeps_held_data m ops c fresh junk r s' :
  run PAGE sizeof_Page ops (start m size) = Done c →
  (nonFull (alloc c) = 0 → pool_ok PAGE (alloc c) fresh = true) →
  PageAllocator_Allocate PAGE sizeof_Page fresh junk (alloc c) = Ret r s' →
  ∀ a i, a ∈ live c → 0 ≤ i < size →
         mem s' (a + i) = mem (alloc c) (a + i).
Proof.
  intros Hrun Hpool Halloc a i Ha Hi.
  pose proof (reach_Inv _ _ _ Hrun) as HI.
  pose proof HI as [_ _ Hpages _ _ _ [_ Hlive] _].
  destruct (Hlive a Ha) as (q & [Q HQ] & Hqa).
  destruct (Hpages q Q HQ) as (_ & Hqal & _).
  pose proof (slot_bounds _ _ _ Hcfg q a Hqa) as Hab.
  pose proof (cfg_stride _ _ _ Hcfg) as (_ & Hs8 & Hsz & _).
  pose proof (cfg_offset sizeof_Page) as [Hoff _].
  assert (∀ h s1,
    InvBut h (mkClient s1 (live c)) → nonFull s1 = h → h ≠ 0 →
    Allocate_take s1 = Ret r s' →
    mem s' (a + i) = mem s1 (a + i)) as Htake.
  { intros h s1 HI1 Hnf1 Hh Ht.
    destruct (Allocate_take_spec h s1 (live c) HI1 Hnf1 Hh)
      as (r0 & s2 & Ht0 & HI2 & Hsl & Hal & _).
    rewrite Ht in Ht0. injection Ht0 as <- <-.
    apply (Allocate_take_frame _ _ _ Ht).
    destruct HI1 as [Hsz1 _ _ _ _ _ _ _]. simpl in Hsz1. rewrite Hsz1.
    destruct HI2 as [_ _ _ _ _ _ [Hnd2 _] _].
    simpl in Hnd2. apply NoDup_cons in Hnd2 as [Hr _].
    assert (a ≠ r) by (by intros ->).
    destruct (slot_sep _ _ _ Hcfg q h a r); try done; lia. }
  rewrite Allocate_halves in Halloc. unfold bind at 1 in Halloc.
  destruct (Z.eqb_spec (nonFull (alloc c)) 0) as [Hz|Hnz]; simpl in Halloc.
  - assert (fresh ≠ 0) as Hf.
    { intros ->. unfold Allocate_grow, CreatePage, PagePool_GetPage in Halloc.
      simpl in Halloc. unfold bind at 1 2 in Halloc. unfold ret at 1 in Halloc.
      unfold InitPage in Halloc. unfold bind at 1 2 in Halloc.
      unfold updPage at 1 in Halloc.
      destruct (pages (alloc c) !! 0) as [P0|] eqn:E0; [|done].
      destruct (Hpages 0 P0 E0). lia. }
    destruct (pool_ok_spec _ _ Hf (Hpool Hz)) as (Hf0 & Hfal & Hfend & Hfnew).
    destruct (Allocate_grow_spec c fresh junk HI Hz Hf0 Hfal Hfend Hfnew)
      as (s1 & Hg & HI1 & Hnf1 & _).
    rewrite Hg in Halloc.
    rewrite (Htake fresh s1 HI1 Hnf1 ltac:(lia) Halloc).
    apply (proj1 (Allocate_grow_frame c fresh junk s1 HI Hf0 Hfend Hg)).
    assert (q ≠ fresh) by (intros ->; by rewrite Hfnew in HQ).
    destruct (pages_apart q fresh); try done; lia.
  - apply (Htake (nonFull (alloc c)) (alloc c)); try done.
    destruct c. by apply Inv_InvBut.
Qed.

(** X9: on a state reached by Allocate and Deallocate calls, Destroy gives
    no page back.  With an empty nonFull list it returns at once and leaves
    the state as it is, the full pages still held; otherwise the first page
    of the list has a slot in use and the check of [DestroyPage] fails. *)
Theorem Destroy_on_reached m ops c :
  run PAGE sizeof_Page ops (start m size) = Done c →
  (nonFull (alloc c) = 0 → Destroy (alloc c) = Ret tt (alloc c)) ∧
  (nonFull (alloc c) ≠ 0 → Destroy (alloc c) = Abort (Fatal DestroyInUse)).
Proof.
  intros Hrun. pose proof (reach_Inv _ _ _ Hrun) as HI.
  destruct HI as [_ _ Hpages Hbusy (l & Hd & _ & _) _ _ _].
  destruct c as [s held]. destruct s as [pg m0 nf tp ss sa acq rt].
  simpl in *. unfold Destroy. simpl. run_monad. split.
  - intros ->. done.
  - intros Hnz. destruct (Z.eqb_spec nf 0); [done|]. simpl.
    destruct l as [|h l]; simpl in Hd; [done|].
    destruct Hd as (-> & _ & H & HH & _).
    rewrite HH. simpl. unfold DestroyPage. run_monad. rewrite HH. simpl.
    destruct (Hpages h H HH) as (Hh0 & _ & _ & Htot & _).
    pose proof (Hbusy h H HH ltac:(lia)).
    destruct (Z.eqb_spec (free H) (total H)); [lia|]. done.
Qed.

(** X13: Deallocate does not check its argument.  Given the null pointer
    it goes through the null page, and given any pointer into a page that
    is not held, such as a slot whose page has been given back, it goes
    through that page. *)
Theorem Deallocate_unchecked m ops c :
  run PAGE sizeof_Page ops (start m size) = Done c →
  PageAllocator_Deallocate PAGE 0 (alloc c) = Abort NullDeref ∧
  (∀ slot, pages (alloc c) !! AlignDown slot PAGE = None →
           AlignDown slot PAGE ≠ 0 →
           PageAllocator_Deallocate PAGE slot (alloc c) =
           Abort (WildDeref (AlignDown slot PAGE))).
Proof.
  intros Hrun. destruct (reach_Inv _ _ _ Hrun) as [_ _ Hpages _ _ _ _ _].
  assert (∀ slot, pages (alloc c) !! AlignDown slot PAGE = None →
            PageAllocator_Deallocate PAGE slot (alloc c) =
            Abort (deref (AlignDown slot PAGE))) as Hgen.
  { intros slot Hnone. unfold PageAllocator_Deallocate, Page_Available.
    unfold bind at 1. unfold bind at 1. unfold getPage. by rewrite Hnone. }
  split.
  - rewrite Hgen.
    + unfold AlignDown. rewrite Z.div_0_l, Z.mul_0_r; [done|].
      pose proof (cfg_fit _ _ _ Hcfg). lia.
    + unfold AlignDown. rewrite Z.div_0_l, Z.mul_0_r.
      * destruct (pages (alloc c) !! 0) as [P|] eqn:E; [|done].
        destruct (Hpages 0 P E). lia.
      * pose proof (cfg_fit _ _ _ Hcfg). lia.
  - intros slot Hnone Hnz. rewrite (Hgen slot Hnone). unfold deref.
    by destruct (Z.eqb_spec (AlignDown slot PAGE) 0).
Qed.

(** X14: a slot given back is the next one handed out from its page.  If
    the page stays held and is at the head of the nonFull list after the
    call, because it was full before or was the head already, the next
    Allocate returns that very slot. *)
Theorem freed_slot_reused_first m ops c slot P s1 fresh junk r s2 :
  run PAGE sizeof_Page ops (start m size) = Done c →
  slot ∈ live c →
  pages (alloc c) !! AlignDown slot PAGE = Some P →
  free P + 1 ≠ total P →
  free P = 0 ∨ nonFull (alloc c) = AlignDown slot PAGE →
  PageAllocator_Deallocate PAGE slot (alloc c) = Ret tt s1 →
  PageAllocator_Allocate PAGE sizeof_Page fresh junk s1 = Ret r s2 →
  r = slot.
Proof.
  intros Hrun Hslot HP Hbusy Hhead Hd Ha.
  pose proof (reach_Inv _ _ _ Hrun) as HI.
  destruct (Deallocate_put_spec c slot HI Hslot)
    as (p & P' & s1' & P1 & Hp & Hsl & HP' & Hput & HI1 & HP1 & Hf1 & _).
  rewrite <- Hp in *. rewrite HP in HP'. injection HP' as <-.
  assert (0 ≤ free P) as Hf0.
  { destruct HI as [_ _ Hpages _ _ _ _ _]. eapply page_ok_free.
    by apply (Hpages p P). }
  assert (total P1 = total P) as Ht.
  { destruct HI as [_ _ Hpages _ _ _ _ _]. destruct HI1 as [_ _ Hpages1 _ _ _ _ _].
    destruct (Hpages p P HP) as (_ & _ & _ & -> & _).
    by destruct (Hpages1 p P1 HP1) as (_ & _ & _ & -> & _). }
  destruct (Deallocate_sweep_spec p s1' _ P1 HI1 HP1 ltac:(lia))
    as (s2' & Hsweep & _ & _ & _ & Hkeep).
  rewrite (Hkeep ltac:(lia)) in Hsweep.
  rewrite Deallocate_halves, <- Hp in Hd. unfold bind in Hd.
  rewrite Hput, Hsweep in Hd. injection Hd as <-.
  assert (nonFull s1' = p ∧ ∃ P', pages s1' !! p = Some P' ∧ header P' = slot)
    as (Hnf & H1 & HH1 & Hhd).
  { revert Hput. unfold Deallocate_put, bind.
    rewrite (Page_Available_spec _ p P HP).
    destruct (Z.eqb_spec (free P) 0) as [Hz|Hnz]; simpl.
    - destruct (AddToList p (alloc c)) as [[] sA|] eqn:EA; [|done].
      intros Hpd. destruct (Page_Deallocate_result _ _ _ _ Hpd) as [-> Hres].
      split; [by eapply AddToList_head|done].
    - unfold ret. intros Hpd.
      destruct (Page_Deallocate_result _ _ _ _ Hpd) as [-> Hres].
      split; [by destruct Hhead|done]. }
  assert (p ≠ 0) as Hp0.
  { destruct HI as [_ _ Hpages _ _ _ _ _]. destruct (Hpages p P HP). lia. }
  rewrite Allocate_halves in Ha. unfold bind at 1 in Ha. rewrite Hnf in Ha.
  destruct (Z.eqb_spec p 0); [done|]. simpl in Ha.
  destruct (Allocate_take_result _ _ _ Ha) as (H & HH & ->).
  rewrite Hnf, HH1 in HH. by injection HH as <-.
Qed.

(** X15: the first slot handed out from a new page is the one right
    behind the page header. *)
Theorem new_page_first_slot m ops c fresh junk r s' :
  run PAGE sizeof_Page ops (start m size) = Done c →
  nonFull (alloc c) = 0 →
  pool_ok PAGE (alloc c) fresh = true →
  PageAllocator_Allocate PAGE sizeof_Page fresh junk (alloc c) = Ret r s' →
  r = fresh + off ∧ acquired s' = fresh :: acquired (alloc c).
Proof.
  intros Hrun Hz Hpool Halloc. pose proof (reach_Inv _ _ _ Hrun) as HI.
  assert (fresh ≠ 0) as Hf.
  { intros ->. by rewrite Allocate_null in Halloc. }
  destruct (pool_ok_spec _ _ Hf Hpool) as (Hf0 & Hfal & Hfend & Hfnew).
  destruct (Allocate_spec c fresh junk HI ltac:(done))
    as (r0 & s0 & _ & Hr & _ & _ & _ & _ & _ & _ & Hacq).
  rewrite Hr in Halloc. injection Halloc as -> ->.
  split; [|by rewrite Hacq, Hz].
  rewrite Allocate_halves in Hr. unfold bind at 1 in Hr. rewrite Hz in Hr.
  simpl in Hr.
  destruct (Allocate_grow PAGE sizeof_Page fresh junk (alloc c))
    as [[] s1|] eqn:Hg; [|done].
  destruct (Allocate_grow_frame c fresh junk s1 HI Hf0 Hfend Hg)
    as (_ & Hnf & H & HH & Hhd).
  destruct (Allocate_take_result _ _ _ Hr) as (H' & HH' & ->).
  rewrite Hnf, HH in HH'. by injection HH' as <-.
Qed.

End Operations.

(** ** Misconfiguration *)

Lemma InitPage_loop_not_Fatal fuel endp block prevSlot s k :
  InitPage_loop fuel endp block prevSlot s ≠ Abort (Fatal k).
Proof.
  revert block prevSlot s. induction fuel as [|fuel IH]; intros block prevSlot s.
  - done.
  - simpl. run_monad. destruct (_ >? _); [done|]. apply IH.
Qed.

Lemma InitPage_check ALLOC_PAGE_SIZE sizeof_Page s p J :
  pages s !! p = Some J → slotAlignment s ≠ 0 →
  InitPage ALLOC_PAGE_SIZE sizeof_Page p s = Abort (Fatal WrongAllocator) ↔
  slotCount ALLOC_PAGE_SIZE sizeof_Page (slotAlignment s) < 1.
Proof.
  intros HJ Hsa. destruct s as [pg m nf tp ss sa acq rt]. simpl in *.
  unfold InitPage. generalize (S (Z.to_nat ALLOC_PAGE_SIZE)) as fuel. intros fuel.
  run_monad. rewrite HJ. simpl. rewrite lookup_insert_eq. simpl.
  destruct (Z.eqb_spec sa 0); [done|]. simpl.
  rewrite lookup_insert_eq. simpl. rewrite lookup_insert_eq. simpl.
  rewrite lookup_insert_eq. simpl.
  destruct (Z.leb_spec 1 (slotCount ALLOC_PAGE_SIZE sizeof_Page sa)); simpl.
  - rewrite lookup_insert_eq. simpl. split; [|lia].
    intros Hloop. by apply InitPage_loop_not_Fatal in Hloop.
  - done.
Qed.

(** Where the stride is not zero, initialising a page fails its check
    exactly when the slot count, the page size minus the rounded header size
    divided by the stride, is less than 1; and for a configuration with at
    least one slot per page no Allocate call on a state reached by Allocate
    and Deallocate calls fails that (or any other) check. *)
Theorem misconfiguration_fatal_in_InitPage ALLOC_PAGE_SIZE sizeof_Page size :
  0 ≤ size < 2 ^ 16 → stride size ≠ 0 →
  ALLOC_PAGE_SIZE mod ALLOC_ALIGNMENT = 0 →
  InitPage_offset sizeof_Page ≤ ALLOC_PAGE_SIZE < 2 ^ 64 →
  slotsPerPage ALLOC_PAGE_SIZE sizeof_Page size < 2 ^ 16 →
  (∀ s p J,
     pages s !! p = Some J → slotAlignment s = stride size →
     InitPage ALLOC_PAGE_SIZE sizeof_Page p s = Abort (Fatal WrongAllocator) ↔
     slotsPerPage ALLOC_PAGE_SIZE sizeof_Page size < 1) ∧
  (1 ≤ slotsPerPage ALLOC_PAGE_SIZE sizeof_Page size →
   ∀ m ops c fresh junk k,
     run ALLOC_PAGE_SIZE sizeof_Page ops (start m size) = Done c →
     (nonFull (alloc c) = 0 → pool_ok ALLOC_PAGE_SIZE (alloc c) fresh = true) →
     PageAllocator_Allocate ALLOC_PAGE_SIZE sizeof_Page fresh junk (alloc c)
     ≠ Abort (Fatal k)).
Proof.
  intros Hsize Hstr Hal Hoff Hfit. split.
  - intros s p J HJ Hsa. rewrite InitPage_check by (done || congruence).
    rewrite Hsa. unfold slotCount, slotsPerPage in *.
    assert (0 < stride size).
    { unfold stride, AlignUp in *.
      pose proof (Z.mod_pos_bound
        (AlignDown (size + ALLOC_ALIGNMENT - 1) ALLOC_ALIGNMENT) (2 ^ 16)). lia. }
    pose proof (cfg_offset sizeof_Page) as [? _].
    rewrite (Z.mod_small (ALLOC_PAGE_SIZE - _)) by lia.
    rewrite Z.mod_small; [done|]. split; [|done]. apply Z.div_pos; lia.
  - intros Hone m ops c fresh junk k Hrun Hpool.
    assert (Configured ALLOC_PAGE_SIZE sizeof_Page size) as Hcfg.
    { unfold Configured. split; [done|]. split; [lia|]. done. }
    pose proof (reach_Inv _ _ _ Hcfg _ _ _ Hrun) as HI.
    destruct (Z.eq_dec (nonFull (alloc c)) 0) as [Hz|Hnz].
    + destruct (Z.eq_dec fresh 0) as [->|Hf].
      { by rewrite (Allocate_null _ _ size c junk HI Hz). }
      destruct (Allocate_spec _ _ _ Hcfg c fresh junk HI) as (r & s' & _ & -> & _);
        [|done]. intros _. by apply pool_ok_spec, Hpool.
    + by destruct (Allocate_spec _ _ _ Hcfg c fresh junk HI ltac:(done))
        as (r & s' & _ & -> & _).
Qed.

(** ** Routing in the AggregateAllocator *)

Section Routing.

Context (RUN_ALLOC_LARGE_SIZE : Z) (RUNTYPE_SIZE_TO_RUN_IDX : Z → Z).

Local Abbreviation Allocate :=
  (AggregateAllocator_Allocate RUN_ALLOC_LARGE_SIZE RUNTYPE_SIZE_TO_RUN_IDX).
Local Abbreviation Deallocate :=
  (AggregateAllocator_Deallocate RUN_ALLOC_LARGE_SIZE RUNTYPE_SIZE_TO_RUN_IDX).

Lemma AlignUp_32_exact size :
  0 ≤ size ≤ 2 ^ 32 - 8 →
  AlignUp 32 (to_uint32 size) ALLOC_ALIGNMENT = alignedRequest size.
Proof.
  intros Hs. unfold AlignUp, to_uint32, alignedRequest, AlignDown.
  rewrite ALLOC_ALIGNMENT_eq. rewrite (Z.mod_small size) by lia.
  apply Z.mod_small.
  pose proof (Z.mul_div_le (size + 8 - 1) 8 ltac:(lia)). split; [|lia].
  apply Z.mul_nonneg_nonneg; [lia|]. apply Z.div_pos; lia.
Qed.

(** Below the limit of [uint32_t] the routing is the one of the spec, and
    Deallocate decides as Allocate does. *)
Lemma Aggregate_routing_in_range size p :
  0 ≤ size ≤ 2 ^ 32 - 8 →
  (alignedRequest size ≤ RUN_ALLOC_LARGE_SIZE →
   Allocate size = Allocator_Allocate (RUNTYPE_SIZE_TO_RUN_IDX (alignedRequest size)) ∧
   Deallocate p size =
     Allocator_Deallocate (RUNTYPE_SIZE_TO_RUN_IDX (alignedRequest size)) p) ∧
  (RUN_ALLOC_LARGE_SIZE < alignedRequest size →
   Allocate size = PagePool_GetRegion size ∧
   Deallocate p size = PagePool_ReturnRegion p size).
Proof.
  intros Hs. unfold AggregateAllocator_Allocate, AggregateAllocator_Deallocate.
  rewrite (AlignUp_32_exact size Hs).
  destruct (Z.leb_spec (alignedRequest size) RUN_ALLOC_LARGE_SIZE); split;
    intros; (done || lia).
Qed.

(** C5, at the request of 2^32 + 8 bytes: the size rounded up to the
    allocation alignment is 2^32 + 8, above any largest size class that a
    [uint32_t] can hold, and yet Allocate and Deallocate both go to the
    size-class allocator for 8 bytes instead of the PagePool. *)
Theorem Aggregate_routing_wraps p :
  8 ≤ RUN_ALLOC_LARGE_SIZE < 2 ^ 32 →
  RUN_ALLOC_LARGE_SIZE < alignedRequest (2 ^ 32 + 8) ∧
  Allocate (2 ^ 32 + 8) = Allocator_Allocate (RUNTYPE_SIZE_TO_RUN_IDX 8) ∧
  Deallocate p (2 ^ 32 + 8) = Allocator_Deallocate (RUNTYPE_SIZE_TO_RUN_IDX 8) p.
Proof.
  intros HL. unfold AggregateAllocator_Allocate, AggregateAllocator_Deallocate.
  change (AlignUp 32 (to_uint32 (2 ^ 32 + 8)) ALLOC_ALIGNMENT) with 8.
  change (alignedRequest (2 ^ 32 + 8)) with (2 ^ 32 + 8).
  destruct (Z.leb_spec 8 RUN_ALLOC_LARGE_SIZE); [|lia].
  split; [lia|done].
Qed.

(** C10: Allocate and Deallocate decide on the requested size truncated
    to 32 bits; so a request above 2^32 bytes whose truncation rounds up to
    at most the largest size class goes to a size-class allocator, not to
    the PagePool, and there is such a request. *)
Theorem Aggregate_routes_on_truncated_size :
  0 ≤ RUN_ALLOC_LARGE_SIZE < 2 ^ 32 →
  (∀ size p,
     AlignUp 32 (size mod 2 ^ 32) ALLOC_ALIGNMENT ≤ RUN_ALLOC_LARGE_SIZE →
     Allocate size =
       Allocator_Allocate
         (RUNTYPE_SIZE_TO_RUN_IDX (AlignUp 32 (size mod 2 ^ 32) ALLOC_ALIGNMENT)) ∧
     Deallocate p size =
       Allocator_Deallocate
         (RUNTYPE_SIZE_TO_RUN_IDX (AlignUp 32 (size mod 2 ^ 32) ALLOC_ALIGNMENT)) p) ∧
  (∃ size index,
     2 ^ 32 < size < 2 ^ 64 ∧
     AlignUp 32 (size mod 2 ^ 32) ALLOC_ALIGNMENT ≤ RUN_ALLOC_LARGE_SIZE ∧
     RUN_ALLOC_LARGE_SIZE < alignedRequest size ∧
     Allocate size = Allocator_Allocate index ∧
     ∀ p, Deallocate p size = Allocator_Deallocate index p).
Proof.
  intros HL.
  assert (∀ size p,
     AlignUp 32 (size mod 2 ^ 32) ALLOC_ALIGNMENT ≤ RUN_ALLOC_LARGE_SIZE →
     Allocate size =
       Allocator_Allocate
         (RUNTYPE_SIZE_TO_RUN_IDX (AlignUp 32 (size mod 2 ^ 32) ALLOC_ALIGNMENT)) ∧
     Deallocate p size =
       Allocator_Deallocate
         (RUNTYPE_SIZE_TO_RUN_IDX (AlignUp 32 (size mod 2 ^ 32) ALLOC_ALIGNMENT)) p)
    as Hroute.
  { intros size p Hfit.
    unfold AggregateAllocator_Allocate, AggregateAllocator_Deallocate, to_uint32.
    destruct (Z.leb_spec (AlignUp 32 (size mod 2 ^ 32) ALLOC_ALIGNMENT)
                RUN_ALLOC_LARGE_SIZE); [done|lia]. }
  split; [done|].
  exists (2 ^ 33), (RUNTYPE_SIZE_TO_RUN_IDX 0).
  assert (AlignUp 32 (2 ^ 33 mod 2 ^ 32) ALLOC_ALIGNMENT = 0) as E by done.
  split; [lia|]. split; [rewrite E; lia|].
  split; [change (alignedRequest (2 ^ 33)) with (2 ^ 33); lia|].
  split.
  - destruct (Hroute (2 ^ 33) 0) as [-> _]; [rewrite E; lia|]. by rewrite E.
  - intros p. destruct (Hroute (2 ^ 33) p) as [_ ->]; [rewrite E; lia|].
    by rewrite E.
Qed.

End Routing.

(** ** Instances *)

Lemma Done_client_of r d : is_Done r = true → r = Done (client_of d r).
Proof. by destruct r. Qed.

Lemma Ret_state_of o r d : returns o r = true → o = Ret r (state_of d o).
Proof.
  destruct o as [a s|]; simpl; [|done]. by intros ->%Z.eqb_eq.
Qed.

Lemma demo_Configured : Configured 4096 32 1000.
Proof. unfold Configured. vm_compute. repeat split; congruence. Qed.

Lemma demo_run : run 4096 32 demo_ops demo_start = Done demo_client.
Proof. apply Done_client_of. vm_compute. reflexivity. Qed.

Lemma nonFull_iff_free_witness :
  run 4096 32 demo_ops (start demo_memory 1000) = Done demo_client ∧
  pages (alloc demo_client) !! 8192 = Some demo_page ∧
  (in_nonFull (alloc demo_client) 8192 ↔ free demo_page ≠ 0).
Proof.
  assert (pages (alloc demo_client) !! 8192 = Some demo_page) as HP
    by (vm_compute; reflexivity).
  split; [exact demo_run|]. split; [exact HP|].
  exact (nonFull_iff_free 4096 32 1000 demo_Configured demo_memory demo_ops
           demo_client 8192 demo_page demo_run HP).
Defined.

Lemma idle_page_released_witness :
  run 4096 32 demo_ops (start demo_memory 1000) = Done demo_client ∧
  (∀ p P, pages (alloc demo_client) !! p = Some P → free P ≠ total P) ∧
  (∀ slot, slot ∈ live demo_client →
     ∃ p P s',
       p = AlignDown slot 4096 ∧ pages (alloc demo_client) !! p = Some P ∧
       PageAllocator_Deallocate 4096 slot (alloc demo_client) = Ret tt s' ∧
       (free P + 1 = total P →
        pages s' !! p = None ∧ ¬ in_nonFull s' p ∧
        returned s' = p :: returned (alloc demo_client)) ∧
       (free P + 1 ≠ total P →
        is_Some (pages s' !! p) ∧ returned s' = returned (alloc demo_client))).
Proof.
  split; [exact demo_run|].
  exact (idle_page_released 4096 32 1000 demo_Configured demo_memory demo_ops
           demo_client demo_run).
Defined.

Lemma demo_first_returns :
  demo_first = Ret 8224 (state_of (alloc demo_start) demo_first).
Proof. apply Ret_state_of. vm_compute. reflexivity. Qed.

Lemma demo_pool_ok :
  nonFull (alloc demo_start) = 0 → pool_ok 4096 (alloc demo_start) 8192 = true.
Proof. intros _. vm_compute. reflexivity. Qed.

Lemma Allocate_aligned_zeroed_witness :
  run 4096 32 [] (start demo_memory 1000) = Done demo_start ∧
  (nonFull (alloc demo_start) = 0 → pool_ok 4096 (alloc demo_start) 8192 = true) ∧
  PageAllocator_Allocate 4096 32 8192 demo_junk (alloc demo_start) =
    Ret 8224 (state_of (alloc demo_start) demo_first) ∧
  8224 ≠ 0 ∧ 8224 mod ALLOC_ALIGNMENT = 0 ∧
  ∀ i, 0 ≤ i < 1000 → mem (state_of (alloc demo_start) demo_first) (8224 + i) = 0.
Proof.
  split; [reflexivity|]. split; [exact demo_pool_ok|].
  split; [exact demo_first_returns|].
  exact (Allocate_aligned_zeroed 4096 32 1000 demo_Configured demo_memory []
           demo_start 8192 demo_junk 8224 (state_of (alloc demo_start) demo_first)
           eq_refl demo_pool_ok demo_first_returns).
Defined.

Lemma demo_third_returns :
  demo_third = Ret 10224 (state_of (alloc demo_client) demo_third).
Proof. apply Ret_state_of. vm_compute. reflexivity. Qed.

Lemma demo_pool_unasked :
  nonFull (alloc demo_client) = 0 → pool_ok 4096 (alloc demo_client) 0 = true.
Proof. intros _. reflexivity. Qed.

Lemma Allocate_slot_of_page_witness :
  run 4096 32 demo_ops (start demo_memory 1000) = Done demo_client ∧
  (nonFull (alloc demo_client) = 0 → pool_ok 4096 (alloc demo_client) 0 = true) ∧
  PageAllocator_Allocate 4096 32 0 demo_junk (alloc demo_client) =
    Ret 10224 (state_of (alloc demo_client) demo_third) ∧
  ∃ k, 0 ≤ k < slotsPerPage 4096 32 1000 ∧
       10224 = AlignDown 10224 4096 + InitPage_offset 32 + k * stride 1000 ∧
       (10224 - (AlignDown 10224 4096 + InitPage_offset 32)) mod stride 1000 = 0 ∧
       10224 mod ALLOC_ALIGNMENT = 0.
Proof.
  split; [exact demo_run|]. split; [exact demo_pool_unasked|].
  split; [exact demo_third_returns|].
  exact (Allocate_slot_of_page 4096 32 1000 demo_Configured demo_memory demo_ops
           demo_client 0 demo_junk 10224 (state_of (alloc demo_client) demo_third)
           demo_run demo_pool_unasked demo_third_returns).
Defined.

Lemma demo_64_Configured : Configured 4096 32 64.
Proof. unfold Configured. vm_compute. repeat split; congruence. Qed.

Lemma demo_first_64_returns :
  demo_first_64 = Ret 4128 (state_of (alloc (start demo_memory 64)) demo_first_64).
Proof. apply Ret_state_of. vm_compute. reflexivity. Qed.

(** C4 as stated fails: with slots of 64 bytes the stride is 64, and the
    first slot of the page at 4096 lies at 4128, behind the header of 32
    bytes; 4128 is not a multiple of 64. *)
Lemma Allocate_not_stride_aligned :
  ¬ (∀ ALLOC_PAGE_SIZE sizeof_Page size m ops c fresh junk r s',
       Configured ALLOC_PAGE_SIZE sizeof_Page size →
       run ALLOC_PAGE_SIZE sizeof_Page ops (start m size) = Done c →
       (nonFull (alloc c) = 0 → pool_ok ALLOC_PAGE_SIZE (alloc c) fresh = true) →
       PageAllocator_Allocate ALLOC_PAGE_SIZE sizeof_Page fresh junk (alloc c) =
         Ret r s' →
       r mod stride size = 0).
Proof.
  intros H.
  specialize (H 4096 32 64 demo_memory [] (start demo_memory 64) 4096 demo_junk
                4128 (state_of (alloc (start demo_memory 64)) demo_first_64)
                demo_64_Configured eq_refl).
  assert (4128 mod stride 64 = 0) as E.
  { apply H; [|exact demo_first_64_returns]. intros _. vm_compute. reflexivity. }
  vm_compute in E. discriminate.
Qed.

Lemma live_slots_disjoint_witness :
  run 4096 32 demo_ops (start demo_memory 1000) = Done demo_client ∧
  live demo_client !! 0%nat = Some 9224 ∧
  live demo_client !! 1%nat = Some 8224 ∧
  0%nat ≠ 1%nat ∧
  (9224 + 1000 ≤ 8224 ∨ 8224 + 1000 ≤ 9224).
Proof.
  assert (live demo_client !! 0%nat = Some 9224) as Ha by (vm_compute; reflexivity).
  assert (live demo_client !! 1%nat = Some 8224) as Hb by (vm_compute; reflexivity).
  assert (0%nat ≠ 1%nat) as Hne by lia.
  split; [exact demo_run|]. split; [exact Ha|]. split; [exact Hb|].
  split; [exact Hne|].
  exact (live_slots_disjoint 4096 32 1000 demo_Configured demo_memory demo_ops
           demo_client 0%nat 1%nat 9224 8224 demo_run Ha Hb Hne).
Defined.

Lemma demo_five_run :
  run 4096 32 (map (λ fj, OpAllocate fj.1 fj.2) demo_supplies)
      (start demo_memory 1000) = Done demo_five.
Proof. apply Done_client_of. vm_compute. reflexivity. Qed.

Lemma demo_order_perm : demo_order ≡ₚ live demo_five.
Proof.
  replace (live demo_five) with [12320; 11224; 10224; 9224; 8224]
    by (vm_compute; reflexivity).
  unfold demo_order.
  apply NoDup_Permutation.
  - repeat constructor; rewrite ?elem_of_cons, ?elem_of_nil; intuition lia.
  - repeat constructor; rewrite ?elem_of_cons, ?elem_of_nil; intuition lia.
  - intros x. rewrite !elem_of_cons, !elem_of_nil. intuition lia.
Qed.

Lemma Allocate_Deallocate_roundtrip_witness :
  run 4096 32 (map (λ fj, OpAllocate fj.1 fj.2) demo_supplies)
      (start demo_memory 1000) = Done demo_five ∧
  demo_order ≡ₚ live demo_five ∧
  length (live demo_five) = length demo_supplies ∧
  ∃ c2, run 4096 32 (map OpDeallocate demo_order) demo_five = Done c2 ∧
        totalPages (alloc c2) = totalPages (alloc (start demo_memory 1000)) ∧
        pages (alloc c2) = ∅ ∧
        live c2 = [] ∧
        returned (alloc c2) ≡ₚ acquired (alloc demo_five).
Proof.
  split; [exact demo_five_run|]. split; [exact demo_order_perm|].
  exact (Allocate_Deallocate_roundtrip 4096 32 1000 demo_Configured demo_memory
           demo_supplies demo_order demo_five demo_five_run demo_order_perm).
Defined.

Lemma misconfiguration_fatal_in_InitPage_witness :
  0 ≤ 1000 < 2 ^ 16 ∧ stride 1000 ≠ 0 ∧
  4096 mod ALLOC_ALIGNMENT = 0 ∧
  InitPage_offset 32 ≤ 4096 < 2 ^ 64 ∧
  slotsPerPage 4096 32 1000 < 2 ^ 16 ∧
  (∀ s p J,
     pages s !! p = Some J → slotAlignment s = stride 1000 →
     InitPage 4096 32 p s = Abort (Fatal WrongAllocator) ↔
     slotsPerPage 4096 32 1000 < 1) ∧
  (1 ≤ slotsPerPage 4096 32 1000 →
   ∀ m ops c fresh junk k,
     run 4096 32 ops (start m 1000) = Done c →
     (nonFull (alloc c) = 0 → pool_ok 4096 (alloc c) fresh = true) →
     PageAllocator_Allocate 4096 32 fresh junk (alloc c) ≠ Abort (Fatal k)).
Proof.
  assert (0 ≤ 1000 < 2 ^ 16) as H1 by lia.
  assert (stride 1000 ≠ 0) as H2 by (vm_compute; discriminate).
  assert (4096 mod ALLOC_ALIGNMENT = 0) as H3 by reflexivity.
  assert (InitPage_offset 32 ≤ 4096 < 2 ^ 64) as H4
    by (vm_compute; split; congruence).
  assert (slotsPerPage 4096 32 1000 < 2 ^ 16) as H5 by (vm_compute; reflexivity).
  do 5 (split; [assumption|]).
  exact (misconfiguration_fatal_in_InitPage 4096 32 1000 H1 H2 H3 H4 H5).
Defined.

Lemma Allocate_pool_failure_witness :
  run 4096 32 [] (start demo_memory 1000) = Done demo_start ∧
  nonFull (alloc demo_start) = 0 ∧
  PageAllocator_Allocate 4096 32 0 demo_junk (alloc demo_start) = Abort NullDeref.
Proof.
  split; [reflexivity|]. split; [reflexivity|].
  exact (Allocate_pool_failure 4096 32 1000 demo_Configured demo_memory []
           demo_start demo_junk eq_refl eq_refl).
Defined.

(** On a new allocator whose PagePool answers with null, no failed check
    with its diagnostic stops Allocate. *)
Lemma pool_failure_not_diagnosed :
  ¬ (∀ ALLOC_PAGE_SIZE sizeof_Page size m ops c junk,
       Configured ALLOC_PAGE_SIZE sizeof_Page size →
       run ALLOC_PAGE_SIZE sizeof_Page ops (start m size) = Done c →
       nonFull (alloc c) = 0 →
       ∃ k, PageAllocator_Allocate ALLOC_PAGE_SIZE sizeof_Page 0 junk (alloc c) =
            Abort (Fatal k)).
Proof.
  intros H.
  destruct (H 4096 32 1000 demo_memory [] demo_start demo_junk
              demo_Configured eq_refl eq_refl) as [k Hk].
  vm_compute in Hk. discriminate.
Qed.

Lemma Aggregate_routing_wraps_witness :
  8 ≤ demo_LARGE_SIZE < 2 ^ 32 ∧
  demo_LARGE_SIZE < alignedRequest (2 ^ 32 + 8) ∧
  AggregateAllocator_Allocate demo_LARGE_SIZE demo_SIZE_TO_RUN_IDX (2 ^ 32 + 8) =
    Allocator_Allocate (demo_SIZE_TO_RUN_IDX 8) ∧
  AggregateAllocator_Deallocate demo_LARGE_SIZE demo_SIZE_TO_RUN_IDX 8224 (2 ^ 32 + 8) =
    Allocator_Deallocate (demo_SIZE_TO_RUN_IDX 8) 8224.
Proof.
  assert (8 ≤ demo_LARGE_SIZE < 2 ^ 32) as HL by (vm_compute; split; congruence).
  split; [exact HL|].
  exact (Aggregate_routing_wraps demo_LARGE_SIZE demo_SIZE_TO_RUN_IDX 8224 HL).
Defined.

Lemma Aggregate_routes_on_truncated_size_witness :
  0 ≤ demo_LARGE_SIZE < 2 ^ 32 ∧
  (∀ size p,
     AlignUp 32 (size mod 2 ^ 32) ALLOC_ALIGNMENT ≤ demo_LARGE_SIZE →
     AggregateAllocator_Allocate demo_LARGE_SIZE demo_SIZE_TO_RUN_IDX size =
       Allocator_Allocate
         (demo_SIZE_TO_RUN_IDX (AlignUp 32 (size mod 2 ^ 32) ALLOC_ALIGNMENT)) ∧
     AggregateAllocator_Deallocate demo_LARGE_SIZE demo_SIZE_TO_RUN_IDX p size =
       Allocator_Deallocate
         (demo_SIZE_TO_RUN_IDX (AlignUp 32 (size mod 2 ^ 32) ALLOC_ALIGNMENT)) p) ∧
  (∃ size index,
     2 ^ 32 < size < 2 ^ 64 ∧
     AlignUp 32 (size mod 2 ^ 32) ALLOC_ALIGNMENT ≤ demo_LARGE_SIZE ∧
     demo_LARGE_SIZE < alignedRequest size ∧
     AggregateAllocator_Allocate demo_LARGE_SIZE demo_SIZE_TO_RUN_IDX size =
       Allocator_Allocate index ∧
     ∀ p, AggregateAllocator_Deallocate demo_LARGE_SIZE demo_SIZE_TO_RUN_IDX p size =
          Allocator_Deallocate index p).
Proof.
  assert (0 ≤ demo_LARGE_SIZE < 2 ^ 32) as HL by (vm_compute; split; congruence).
  split; [exact HL|].
  exact (Aggregate_routes_on_truncated_size demo_LARGE_SIZE demo_SIZE_TO_RUN_IDX HL).
Defined.

(** ** Destroy *)

Lemma idle_list_delete pg cur l q :
  q ∉ l → idle_list pg cur l = true → idle_list (delete q pg) cur l = true.
Proof.
  revert cur. induction l as [|p l IH]; intros cur Hq; simpl; [done|].
  apply not_elem_of_cons in Hq as [Hqp Hql].
  rewrite !andb_true_iff. intros [Hc H]. split; [done|].
  rewrite lookup_delete_ne by done.
  destruct (pg !! p) as [P|]; [|done].
  apply andb_true_iff in H as [Hf H]. rewrite Hf. simpl. by apply IH.
Qed.

Lemma idle_list_length pg cur l :
  NoDup l → idle_list pg cur l = true → (length l ≤ base.size pg)%nat.
Proof.
  revert pg cur. induction l as [|p l IH]; intros pg cur Hnd; simpl; [lia|].
  apply NoDup_cons in Hnd as [Hp Hnd].
  rewrite !andb_true_iff. intros [_ H].
  destruct (pg !! p) as [P|] eqn:HP; [|done].
  apply andb_true_iff in H as [_ H].
  pose proof (IH (delete p pg) (next P) Hnd (idle_list_delete _ _ _ _ Hp H)).
  rewrite map_size_delete_Some in * by done.
  assert (base.size pg ≠ 0%nat); [|lia].
  intros E. apply map_size_empty_inv in E. by rewrite E in HP.
Qed.

Lemma DestroyList_idle l : ∀ fuel s,
  (length l < fuel)%nat → NoDup l →
  idle_list (pages s) (nonFull s) l = true →
  ∃ s', DestroyList fuel s = Ret tt s' ∧
        nonFull s' = 0 ∧
        returned s' = rev l ++ returned s ∧
        (∀ p, pages s' !! p = if decide (p ∈ l) then None else pages s !! p) ∧
        totalPages s' = totalPages s ∧ acquired s' = acquired s ∧
        mem s' = mem s.
Proof.
  induction l as [|p l IH]; intros fuel s Hfuel Hnd Hl.
  - destruct fuel as [|fuel]; [simpl in Hfuel; lia|].
    simpl in Hl. apply Z.eqb_eq in Hl.
    exists s. simpl. unfold bind, gets. rewrite Hl. simpl.
    repeat split; try done.
  - destruct fuel as [|fuel]; [simpl in Hfuel; lia|].
    apply NoDup_cons in Hnd as [Hp Hnd]. simpl in Hl.
    rewrite !andb_true_iff in Hl. destruct Hl as [[Hc Hp0] Hl].
    apply Z.eqb_eq in Hc. apply negb_true_iff, Z.eqb_neq in Hp0.
    destruct (pages s !! p) as [P|] eqn:HP; [|done].
    apply andb_true_iff in Hl as [Hf Hl].
    set (s1 := log_returned p (set_pages (delete p) (set_nonFull (next P) s))).
    destruct (IH fuel s1) as (s' & Hs' & Hnf & Hret & Hpg & Htp & Hacq & Hmem).
    { simpl in Hfuel. lia. }
    { done. }
    { simpl. by apply idle_list_delete. }
    exists s'. split.
    { simpl. unfold bind at 1. unfold gets. rewrite Hc.
      destruct (Z.eqb_spec p 0) as [|_]; [done|]. simpl.
      unfold bind at 1. unfold getPage at 1. rewrite HP.
      unfold bind at 1. unfold modify at 1.
      unfold bind at 1. unfold DestroyPage, PagePool_ReturnPage.
      unfold bind at 1. unfold getPage at 1. simpl. rewrite HP, Hf. simpl.
      unfold bind, modify. simpl. exact Hs'. }
    split; [done|]. split.
    { rewrite Hret. simpl. by rewrite <- app_assoc. }
    split.
    { intros q. rewrite Hpg. simpl.
      destruct (decide (q ∈ l)) as [Hq|Hq].
      - rewrite decide_True; [done|]. by apply elem_of_cons; right.
      - destruct (decide (q = p)) as [->|Hqp].
        + rewrite decide_True by (apply elem_of_cons; by left).
          by rewrite lookup_delete_eq.
        + rewrite decide_False by (rewrite elem_of_cons; tauto).
          by rewrite lookup_delete_ne. }
    done.
Qed.

(** X10: where the nonFull list consists of pages with every slot free,
    Destroy gives each of them back to the PagePool, first to last, and
    leaves the list empty; [totalPages] is not counted down, and the pages
    that are not on the list stay held. *)
Theorem Destroy_idle_list s l :
  NoDup l →
  idle_list (pages s) (nonFull s) l = true →
  ∃ s', Destroy s = Ret tt s' ∧
        nonFull s' = 0 ∧
        returned s' = rev l ++ returned s ∧
        (∀ p, pages s' !! p = if decide (p ∈ l) then None else pages s !! p) ∧
        totalPages s' = totalPages s ∧ acquired s' = acquired s ∧
        mem s' = mem s.
Proof.
  intros Hnd Hl. unfold Destroy. apply DestroyList_idle; [|done|done].
  pose proof (idle_list_length _ _ _ Hnd Hl). lia.
Qed.

(** ** Allocators without a usable slot size *)

Lemma stride_zero_iff size :
  0 ≤ size < 2 ^ 16 → stride size = 0 ↔ size = 0 ∨ 65528 < size.
Proof.
  intros Hs. unfold stride, AlignUp, AlignDown. rewrite ALLOC_ALIGNMENT_eq.
  destruct (Z.eq_dec size 0) as [->|Hz]; [by split; [left|]|].
  destruct (Z_le_gt_dec size 65528) as [Hle|Hgt].
  - assert (1 ≤ (size + 8 - 1) / 8 ≤ 8191) as Hq.
    { split; [apply Z.div_le_lower_bound; lia|].
      apply Z.lt_succ_r, Z.div_lt_upper_bound; lia. }
    rewrite Z.mod_small by lia. lia.
  - assert ((size + 8 - 1) / 8 = 8192) as ->.
    { apply Z.le_antisymm.
      - apply Z.lt_succ_r, Z.div_lt_upper_bound; lia.
      - apply Z.div_le_lower_bound; lia. }
    split; [by right; lia|done].
Qed.

Lemma Allocate_zero_stride ALLOC_PAGE_SIZE sizeof_Page fresh junk s :
  nonFull s = 0 → slotAlignment s = 0 → fresh ≠ 0 →
  PageAllocator_Allocate ALLOC_PAGE_SIZE sizeof_Page fresh junk s =
    Abort DivideByZero.
Proof.
  intros Hnf Hsa Hf. destruct s as [pg m nf tp ss sa acq rt]. simpl in *.
  subst nf sa. unfold PageAllocator_Allocate, CreatePage, PagePool_GetPage.
  apply Z.eqb_neq in Hf. rewrite Hf. unfold InitPage.
  run_monad. rewrite !lookup_insert_eq. simpl. rewrite !lookup_insert_eq.
  by simpl.
Qed.

(** X11: [Init] on a default-constructed allocator gives the allocator
    that the constructor with a size gives.  The stride of a 16-bit slot
    size is zero exactly for size 0 and for the sizes above 65528, whose
    rounding up wraps; with such a size, and on an allocator that was never
    initialised, the first Allocate that is given a page divides by zero in
    [InitPage], ahead of the check that would report a wrong allocator. *)
Theorem zero_stride_divides_by_zero ALLOC_PAGE_SIZE sizeof_Page m size fresh junk :
  0 ≤ size < 2 ^ 16 →
  fresh ≠ 0 →
  PageAllocator_Init size (PageAllocator_default m) =
    Ret tt (PageAllocator_new m size) ∧
  (stride size = 0 ↔ size = 0 ∨ 65528 < size) ∧
  (size = 0 ∨ 65528 < size →
   PageAllocator_Allocate ALLOC_PAGE_SIZE sizeof_Page fresh junk
     (PageAllocator_new m size) = Abort DivideByZero) ∧
  PageAllocator_Allocate ALLOC_PAGE_SIZE sizeof_Page fresh junk
    (PageAllocator_default m) = Abort DivideByZero.
Proof.
  intros Hs Hf. split; [done|]. split; [by apply stride_zero_iff|].
  split.
  - intros Hz. apply Allocate_zero_stride; [done| |done].
    by apply stride_zero_iff.
  - by apply Allocate_zero_stride.
Qed.

Lemma InitPage_zero_stride ALLOC_PAGE_SIZE sizeof_Page p J s :
  pages s !! p = Some J → slotAlignment s = 0 →
  InitPage ALLOC_PAGE_SIZE sizeof_Page p s = Abort DivideByZero.
Proof.
  intros HJ Hsa. destruct s as [pg m nf tp ss sa acq rt]. simpl in *.
  subst sa. unfold InitPage. run_monad. rewrite HJ. simpl.
  rewrite !lookup_insert_eq. by simpl.
Qed.

(** C8: a slot size whose stride is zero, which is size 0 and the sizes
    65529 to 65535 that round up to 65536 and wrap, is accepted by the
    constructor.  A size above 65528 leaves no slot in a page of less than
    65536 bytes behind its header: the slot count is less than 1.  Yet
    initialising a page does not fail the check for it: [InitPage] divides
    by the zero stride ahead of the check, and so does the first Allocate
    that is given a page. *)
Theorem misconfiguration_divides_by_zero ALLOC_PAGE_SIZE sizeof_Page size :
  0 ≤ size < 2 ^ 16 →
  size = 0 ∨ 65528 < size →
  InitPage_offset sizeof_Page ≤ ALLOC_PAGE_SIZE →
  ALLOC_PAGE_SIZE - InitPage_offset sizeof_Page < 2 ^ 16 →
  (65528 < size →
   (ALLOC_PAGE_SIZE - InitPage_offset sizeof_Page) / alignedRequest size < 1) ∧
  (∀ s p J,
     pages s !! p = Some J → slotAlignment s = stride size →
     InitPage ALLOC_PAGE_SIZE sizeof_Page p s = Abort DivideByZero ∧
     InitPage ALLOC_PAGE_SIZE sizeof_Page p s ≠ Abort (Fatal WrongAllocator)) ∧
  (∀ m fresh junk,
     fresh ≠ 0 →
     PageAllocator_Allocate ALLOC_PAGE_SIZE sizeof_Page fresh junk
       (alloc (start m size)) = Abort DivideByZero).
Proof.
  intros Hs Hz Hoff Hfit.
  assert (stride size = 0) as Hstr by by apply stride_zero_iff.
  split; [|split].
  - intros Hbig. unfold alignedRequest, AlignDown.
    rewrite ALLOC_ALIGNMENT_eq.
    assert ((size + 8 - 1) / 8 = 8192) as ->.
    { apply Z.le_antisymm.
      - apply Z.lt_succ_r, Z.div_lt_upper_bound; lia.
      - apply Z.div_le_lower_bound; lia. }
    rewrite Z.div_small; lia.
  - intros s p J HJ Hsa.
    rewrite (InitPage_zero_stride _ _ p J s HJ) by congruence. done.
  - intros m fresh junk Hf. by apply Allocate_zero_stride.
Qed.

(** ** StdContainerAllocator *)

(** X12: [max_size] is the largest element count whose size in bytes fits
    a [size_t].  Up to it, [allocate] and [deallocate] pass the exact byte
    count [sizeof(T) * n] on to the AggregateAllocator, and both calls reach
    the same allocator; neither compares [n] with [max_size]. *)
Theorem max_size_bounds_byte_count L F sizeof_T n p :
  0 < sizeof_T →
  0 ≤ n →
  (n ≤ StdContainerAllocator_max_size sizeof_T ↔ sizeof_T * n < 2 ^ 64) ∧
  (n ≤ StdContainerAllocator_max_size sizeof_T →
   StdContainerAllocator_allocate L F sizeof_T n =
     AggregateAllocator_Allocate L F (sizeof_T * n) ∧
   StdContainerAllocator_deallocate L F sizeof_T p n =
     AggregateAllocator_Deallocate L F p (sizeof_T * n)) ∧
  (∀ i, StdContainerAllocator_allocate L F sizeof_T n = Allocator_Allocate i →
        StdContainerAllocator_deallocate L F sizeof_T p n =
          Allocator_Deallocate i p).
Proof.
  intros HT Hn.
  assert (n ≤ StdContainerAllocator_max_size sizeof_T ↔ sizeof_T * n < 2 ^ 64)
    as Hiff.
  { unfold StdContainerAllocator_max_size. split.
    - intros Hle.
      pose proof (Z.mul_div_le (2 ^ 64 - 1) sizeof_T HT). nia.
    - intros Hlt. apply Z.div_le_lower_bound; lia. }
  split; [done|]. split.
  - intros Hle%Hiff.
    unfold StdContainerAllocator_allocate, StdContainerAllocator_deallocate.
    rewrite Z.mod_small by nia. done.
  - intros i. unfold StdContainerAllocator_allocate,
      StdContainerAllocator_deallocate, AggregateAllocator_Allocate,
      AggregateAllocator_Deallocate.
    destruct (_ <=? L); [|done]. by intros [= <-].
Qed.

(** ** Further instances *)

Lemma Ret_tt_state_of (o : outcome unit) d :
  is_Ret o = true → o = Ret tt (state_of d o).
Proof. by destruct o as [[] s|]. Qed.

Lemma demo_back_run : run 4096 32 demo_back_ops demo_start = Done demo_back.
Proof. apply Done_client_of. vm_compute. reflexivity. Qed.

Lemma demo_held : 9224 ∈ live demo_client.
Proof.
  replace (live demo_client) with [9224; 8224] by (vm_compute; reflexivity).
  apply elem_of_cons. by left.
Qed.

Lemma demo_put_returns :
  demo_put = Ret tt (state_of (alloc demo_client) demo_put).
Proof. apply Ret_tt_state_of. vm_compute. reflexivity. Qed.

Lemma demo_retake_returns :
  demo_retake =
  Ret 9224 (state_of (state_of (alloc demo_client) demo_put) demo_retake).
Proof. apply Ret_state_of. vm_compute. reflexivity. Qed.

Lemma nothing_held_nothing_kept_witness :
  run 4096 32 demo_back_ops (start demo_memory 1000) = Done demo_back ∧
  live demo_back = [] ∧
  pages (alloc demo_back) = ∅ ∧ nonFull (alloc demo_back) = 0 ∧
  totalPages (alloc demo_back) = 0 ∧
  returned (alloc demo_back) ≡ₚ acquired (alloc demo_back).
Proof.
  assert (live demo_back = []) as Hl by (vm_compute; reflexivity).
  split; [exact demo_back_run|]. split; [exact Hl|].
  exact (nothing_held_nothing_kept 4096 32 1000 demo_Configured demo_memory
           demo_back_ops demo_back demo_back_run Hl).
Defined.

Lemma totalPages_accounting_witness :
  run 4096 32 demo_ops (start demo_memory 1000) = Done demo_client ∧
  acquired (alloc demo_client) ≡ₚ
    returned (alloc demo_client) ++ elements (dom (pages (alloc demo_client))) ∧
  (length (returned (alloc demo_client)) ≤
   length (acquired (alloc demo_client)))%nat ∧
  totalPages (alloc demo_client) =
    (Z.of_nat (length (acquired (alloc demo_client))) -
     Z.of_nat (length (returned (alloc demo_client)))) mod 2 ^ 32.
Proof.
  split; [exact demo_run|].
  exact (totalPages_accounting 4096 32 1000 demo_Configured demo_memory
           demo_ops demo_client demo_run).
Defined.

Lemma live_blocks_inside_pages_witness :
  run 4096 32 demo_ops (start demo_memory 1000) = Done demo_client ∧
  9224 ∈ live demo_client ∧
  is_Some (pages (alloc demo_client) !! AlignDown 9224 4096) ∧
  AlignDown 9224 4096 + InitPage_offset 32 ≤ 9224 ∧
  9224 + 1000 ≤ AlignDown 9224 4096 + 4096.
Proof.
  split; [exact demo_run|]. split; [exact demo_held|].
  exact (live_blocks_inside_pages 4096 32 1000 demo_Configured demo_memory
           demo_ops demo_client 9224 demo_run demo_held).
Defined.

Lemma demo_pool_fails :
  run 4096 32 [OpAllocate 0 demo_junk] (start demo_memory 1000) =
  Stopped NullDeref.
Proof. vm_compute. reflexivity. Qed.

Lemma run_stops_only_on_pool_failure_witness :
  run 4096 32 [OpAllocate 0 demo_junk] (start demo_memory 1000) =
    Stopped NullDeref ∧
  NullDeref = NullDeref ∧
  ∃ junk, OpAllocate 0 junk ∈ [OpAllocate 0 demo_junk].
Proof.
  split; [exact demo_pool_fails|].
  exact (run_stops_only_on_pool_failure 4096 32 1000 demo_Configured
           demo_memory [OpAllocate 0 demo_junk] NullDeref demo_pool_fails).
Defined.

Lemma Allocate_acquires_lazily_witness :
  run 4096 32 demo_ops (start demo_memory 1000) = Done demo_client ∧
  (nonFull (alloc demo_client) = 0 → pool_ok 4096 (alloc demo_client) 0 = true) ∧
  PageAllocator_Allocate 4096 32 0 demo_junk (alloc demo_client) =
    Ret 10224 (state_of (alloc demo_client) demo_third) ∧
  (nonFull (alloc demo_client) = 0 ↔
   ∀ p P, pages (alloc demo_client) !! p = Some P → free P = 0) ∧
  acquired (state_of (alloc demo_client) demo_third) =
    (if nonFull (alloc demo_client) =? 0 then [0] else []) ++
    acquired (alloc demo_client) ∧
  returned (state_of (alloc demo_client) demo_third) =
    returned (alloc demo_client).
Proof.
  split; [exact demo_run|]. split; [exact demo_pool_unasked|].
  split; [exact demo_third_returns|].
  exact (Allocate_acquires_lazily 4096 32 1000 demo_Configured demo_memory
           demo_ops demo_client 0 demo_junk 10224
           (state_of (alloc demo_client) demo_third)
           demo_run demo_pool_unasked demo_third_returns).
Defined.

Lemma held_pages_bounded_witness :
  run 4096 32 demo_ops (start demo_memory 1000) = Done demo_client ∧
  Z.of_nat (base.size (pages (alloc demo_client))) ≤
    Z.of_nat (length (live demo_client)) ∧
  Z.of_nat (length (live demo_client)) ≤
    slotsPerPage 4096 32 1000 * Z.of_nat (base.size (pages (alloc demo_client))).
Proof.
  split; [exact demo_run|].
  exact (held_pages_bounded 4096 32 1000 demo_Configured demo_memory
           demo_ops demo_client demo_run).
Defined.

Lemma Deallocate_keeps_held_data_witness :
  run 4096 32 demo_ops (start demo_memory 1000) = Done demo_client ∧
  9224 ∈ live demo_client ∧
  PageAllocator_Deallocate 4096 9224 (alloc demo_client) =
    Ret tt (state_of (alloc demo_client) demo_put) ∧
  (∀ x, ¬ (9224 ≤ x < 9224 + 8) →
        (∀ p, is_Some (pages (alloc demo_client) !! p) → ¬ (p ≤ x < p + 32)) →
        mem (state_of (alloc demo_client) demo_put) x =
        mem (alloc demo_client) x) ∧
  (∀ a i, a ∈ live demo_client → a ≠ 9224 → 0 ≤ i < 1000 →
          mem (state_of (alloc demo_client) demo_put) (a + i) =
          mem (alloc demo_client) (a + i)).
Proof.
  split; [exact demo_run|]. split; [exact demo_held|].
  split; [exact demo_put_returns|].
  exact (Deallocate_keeps_held_data 4096 32 1000 demo_Configured demo_memory
           demo_ops demo_client 9224 (state_of (alloc demo_client) demo_put)
           demo_run demo_held demo_put_returns).
Defined.

Lemma Allocate_keeps_held_data_witness :
  run 4096 32 demo_ops (start demo_memory 1000) = Done demo_client ∧
  (nonFull (alloc demo_client) = 0 → pool_ok 4096 (alloc demo_client) 0 = true) ∧
  PageAllocator_Allocate 4096 32 0 demo_junk (alloc demo_client) =
    Ret 10224 (state_of (alloc demo_client) demo_third) ∧
  ∀ a i, a ∈ live demo_client → 0 ≤ i < 1000 →
         mem (state_of (alloc demo_client) demo_third) (a + i) =
         mem (alloc demo_client) (a + i).
Proof.
  split; [exact demo_run|]. split; [exact demo_pool_unasked|].
  split; [exact demo_third_returns|].
  exact (Allocate_keeps_held_data 4096 32 1000 demo_Configured demo_memory
           demo_ops demo_client 0 demo_junk 10224
           (state_of (alloc demo_client) demo_third)
           demo_run demo_pool_unasked demo_third_returns).
Defined.

Lemma Destroy_on_reached_witness :
  run 4096 32 demo_ops (start demo_memory 1000) = Done demo_client ∧
  (nonFull (alloc demo_client) = 0 →
   Destroy (alloc demo_client) = Ret tt (alloc demo_client)) ∧
  (nonFull (alloc demo_client) ≠ 0 →
   Destroy (alloc demo_client) = Abort (Fatal DestroyInUse)).
Proof.
  split; [exact demo_run|].
  exact (Destroy_on_reached 4096 32 1000 demo_Configured demo_memory
           demo_ops demo_client demo_run).
Defined.

Lemma Destroy_idle_list_witness :
  NoDup [8192; 12288] ∧
  idle_list (pages demo_idle) (nonFull demo_idle) [8192; 12288] = true ∧
  ∃ s', Destroy demo_idle = Ret tt s' ∧
        nonFull s' = 0 ∧
        returned s' = rev [8192; 12288] ++ returned demo_idle ∧
        (∀ p, pages s' !! p =
              if decide (p ∈ [8192; 12288]) then None
              else pages demo_idle !! p) ∧
        totalPages s' = totalPages demo_idle ∧
        acquired s' = acquired demo_idle ∧
        mem s' = mem demo_idle.
Proof.
  assert (NoDup [8192; 12288]) as Hnd
    by (apply (bool_decide_unpack _); vm_compute; exact I).
  assert (idle_list (pages demo_idle) (nonFull demo_idle) [8192; 12288] = true)
    as Hl by (vm_compute; reflexivity).
  split; [exact Hnd|]. split; [exact Hl|].
  exact (Destroy_idle_list demo_idle [8192; 12288] Hnd Hl).
Defined.

Lemma zero_stride_divides_by_zero_witness :
  0 ≤ 0 < 2 ^ 16 ∧ 8192 ≠ 0 ∧
  PageAllocator_Init 0 (PageAllocator_default demo_memory) =
    Ret tt (PageAllocator_new demo_memory 0) ∧
  (stride 0 = 0 ↔ 0 = 0 ∨ 65528 < 0) ∧
  (0 = 0 ∨ 65528 < 0 →
   PageAllocator_Allocate 4096 32 8192 demo_junk
     (PageAllocator_new demo_memory 0) = Abort DivideByZero) ∧
  PageAllocator_Allocate 4096 32 8192 demo_junk
    (PageAllocator_default demo_memory) = Abort DivideByZero.
Proof.
  assert (0 ≤ 0 < 2 ^ 16) as H1 by lia.
  assert (8192 ≠ 0) as H2 by lia.
  split; [exact H1|]. split; [exact H2|].
  exact (zero_stride_divides_by_zero 4096 32 demo_memory 0 8192 demo_junk H1 H2).
Defined.

Lemma misconfiguration_divides_by_zero_witness :
  0 ≤ 65535 < 2 ^ 16 ∧ (65535 = 0 ∨ 65528 < 65535) ∧
  InitPage_offset 32 ≤ 4096 ∧
  4096 - InitPage_offset 32 < 2 ^ 16 ∧
  (65528 < 65535 → (4096 - InitPage_offset 32) / alignedRequest 65535 < 1) ∧
  (∀ s p J,
     pages s !! p = Some J → slotAlignment s = stride 65535 →
     InitPage 4096 32 p s = Abort DivideByZero ∧
     InitPage 4096 32 p s ≠ Abort (Fatal WrongAllocator)) ∧
  (∀ m fresh junk,
     fresh ≠ 0 →
     PageAllocator_Allocate 4096 32 fresh junk (alloc (start m 65535)) =
       Abort DivideByZero).
Proof.
  assert (0 ≤ 65535 < 2 ^ 16) as H1 by lia.
  assert (65535 = 0 ∨ 65528 < 65535) as H2 by (right; lia).
  assert (InitPage_offset 32 ≤ 4096) as H3 by (vm_compute; congruence).
  assert (4096 - InitPage_offset 32 < 2 ^ 16) as H4 by (vm_compute; reflexivity).
  split; [exact H1|]. split; [exact H2|]. split; [exact H3|].
  split; [exact H4|].
  exact (misconfiguration_divides_by_zero 4096 32 65535 H1 H2 H3 H4).
Defined.

Lemma max_size_bounds_byte_count_witness :
  0 < 24 ∧ 0 ≤ 10 ∧
  (10 ≤ StdContainerAllocator_max_size 24 ↔ 24 * 10 < 2 ^ 64) ∧
  (10 ≤ StdContainerAllocator_max_size 24 →
   StdContainerAllocator_allocate demo_LARGE_SIZE demo_SIZE_TO_RUN_IDX 24 10 =
     AggregateAllocator_Allocate demo_LARGE_SIZE demo_SIZE_TO_RUN_IDX (24 * 10) ∧
   StdContainerAllocator_deallocate demo_LARGE_SIZE demo_SIZE_TO_RUN_IDX 24 8224 10 =
     AggregateAllocator_Deallocate demo_LARGE_SIZE demo_SIZE_TO_RUN_IDX 8224
       (24 * 10)) ∧
  (∀ i, StdContainerAllocator_allocate demo_LARGE_SIZE demo_SIZE_TO_RUN_IDX 24 10 =
          Allocator_Allocate i →
        StdContainerAllocator_deallocate demo_LARGE_SIZE demo_SIZE_TO_RUN_IDX
          24 8224 10 = Allocator_Deallocate i 8224).
Proof.
  assert (0 < 24) as H1 by lia.
  assert (0 ≤ 10) as H2 by lia.
  split; [exact H1|]. split; [exact H2|].
  exact (max_size_bounds_byte_count demo_LARGE_SIZE demo_SIZE_TO_RUN_IDX
           24 10 8224 H1 H2).
Defined.

Lemma Deallocate_unchecked_witness :
  run 4096 32 demo_back_ops (start demo_memory 1000) = Done demo_back ∧
  PageAllocator_Deallocate 4096 0 (alloc demo_back) = Abort NullDeref ∧
  (∀ slot, pages (alloc demo_back) !! AlignDown slot 4096 = None →
           AlignDown slot 4096 ≠ 0 →
           PageAllocator_Deallocate 4096 slot (alloc demo_back) =
           Abort (WildDeref (AlignDown slot 4096))).
Proof.
  split; [exact demo_back_run|].
  exact (Deallocate_unchecked 4096 32 1000 demo_Configured demo_memory
           demo_back_ops demo_back demo_back_run).
Defined.

Lemma demo_page_held :
  pages (alloc demo_client) !! AlignDown 9224 4096 = Some demo_page.
Proof. vm_compute. reflexivity. Qed.

Lemma freed_slot_reused_first_witness :
  run 4096 32 demo_ops (start demo_memory 1000) = Done demo_client ∧
  9224 ∈ live demo_client ∧
  pages (alloc demo_client) !! AlignDown 9224 4096 = Some demo_page ∧
  free demo_page + 1 ≠ total demo_page ∧
  (free demo_page = 0 ∨ nonFull (alloc demo_client) = AlignDown 9224 4096) ∧
  PageAllocator_Deallocate 4096 9224 (alloc demo_client) =
    Ret tt (state_of (alloc demo_client) demo_put) ∧
  PageAllocator_Allocate 4096 32 0 demo_junk
    (state_of (alloc demo_client) demo_put) =
    Ret 9224 (state_of (state_of (alloc demo_client) demo_put) demo_retake) ∧
  9224 = 9224.
Proof.
  assert (free demo_page + 1 ≠ total demo_page) as Hb by (simpl; lia).
  assert (free demo_page = 0 ∨ nonFull (alloc demo_client) = AlignDown 9224 4096)
    as Hh by (right; vm_compute; reflexivity).
  split; [exact demo_run|]. split; [exact demo_held|].
  split; [exact demo_page_held|]. split; [exact Hb|]. split; [exact Hh|].
  split; [exact demo_put_returns|]. split; [exact demo_retake_returns|].
  exact (freed_slot_reused_first 4096 32 1000 demo_Configured demo_memory
           demo_ops demo_client 9224 demo_page
           (state_of (alloc demo_client) demo_put) 0 demo_junk 9224
           (state_of (state_of (alloc demo_client) demo_put) demo_retake)
           demo_run demo_held demo_page_held Hb Hh
           demo_put_returns demo_retake_returns).
Defined.

Lemma new_page_first_slot_witness :
  run 4096 32 [] (start demo_memory 1000) = Done demo_start ∧
  nonFull (alloc demo_start) = 0 ∧
  pool_ok 4096 (alloc demo_start) 8192 = true ∧
  PageAllocator_Allocate 4096 32 8192 demo_junk (alloc demo_start) =
    Ret 8224 (state_of (alloc demo_start) demo_first) ∧
  8224 = 8192 + InitPage_offset 32 ∧
  acquired (state_of (alloc demo_start) demo_first) =
    8192 :: acquired (alloc demo_start).
Proof.
  assert (pool_ok 4096 (alloc demo_start) 8192 = true) as Hp
    by (vm_compute; reflexivity).
  split; [reflexivity|]. split; [reflexivity|]. split; [exact Hp|].
  split; [exact demo_first_returns|].
  exact (new_page_first_slot 4096 32 1000 demo_Configured demo_memory []
           demo_start 8192 demo_junk 8224
           (state_of (alloc demo_start) demo_first)
           eq_refl eq_refl Hp demo_first_returns).
Defined.
